(** * wsbps-js: the binary packet codec (data.ts, packets.ts)

    A shallow embedding of the codec engine of the TypeScript sources: the
    offset tracker, the [DataView] accessors the codecs call, the primitive
    codecs, [VarInt], the length-prefixed combinators and the struct and
    packet definitions, followed by the properties established about them.

    Conventions of the embedding.
    - A JavaScript integral number is a [Z]; the 32-bit behaviour of the
      bitwise operators ([|], [&], [<<], [>>]) is written out with [ToInt32].
    - An [ArrayBuffer] is a [list Z] of octets; a [DataView] is always built
      over a whole buffer ([new DataView(buffer)]), so it is the buffer.
    - The view [d] and the tracker [t] that every codec receives form the
      [heap]; a codec is a function from heaps to outcomes, and an outcome is
      either a normal return or a thrown error, both with the heap reached.
    - Limits of an engine (the longest string, the largest argument list of
      [Function.prototype.apply]) are not part of the embedding.

    [MapType] is embedded with the property order of JavaScript objects.
    Of [BinarySocket] the embedding has the packet definitions, the packet
    listeners and the two trackers, and what [onmessage], [createBuffer],
    [definePacket], [definePackets], [addListener] and [removeListener] do
    with them; the WebSocket connection itself (opening, reconnecting, its
    events) is not embedded. *)

From Stdlib Require Import ZArith Lia Bool.
From Stdlib Require Import Floats.SpecFloat.
From Stdlib Require Import Ascii DecimalString.
From stdpp Require Import base list strings gmap.

Local Open Scope string_scope.
Local Open Scope list_scope.
Local Open Scope Z_scope.
Set Warnings "-register-all".

(** ** JavaScript numbers: the 32-bit integer operators *)

Module JS.

(** [ToInt32]: reduction modulo 2^32 into the signed range. *)
Definition ToInt32 (z : Z) : Z := (z + 2 ^ 31) mod 2 ^ 32 - 2 ^ 31.

(** [ToUint32], and the shift count every shift operator uses. *)
Definition ToUint32 (z : Z) : Z := z mod 2 ^ 32.
Definition shiftCount (n : Z) : Z := ToUint32 n mod 32.

(** [a | b] *)
Definition bor (a b : Z) : Z := Z.lor (ToInt32 a) (ToInt32 b).

(** [a & b] *)
Definition band (a b : Z) : Z := Z.land (ToInt32 a) (ToInt32 b).

(** [a >> n], the sign-propagating shift. *)
Definition sar (a n : Z) : Z := Z.shiftr (ToInt32 a) (shiftCount n).

(** [a << n] *)
Definition shl (a n : Z) : Z := ToInt32 (Z.shiftl (ToInt32 a) (shiftCount n)).

End JS.

(** ** Errors, results and the heap monad *)

(** [RangeError] is what [DataView] and the typed-array constructors throw;
    [TypeError] stands for a value outside the static type of the codec it is
    given to; [Diverged] marks a loop that used up its iteration budget (the
    two [while] loops of [VarInt] are shown never to reach it). *)
Inductive error := RangeError | TypeError | Diverged.

Inductive result (A : Type) :=
| Ok (a : A)
| Err (e : error).
Arguments Ok {A} a.
Arguments Err {A} e.

Definition rbind {A B} (r : result A) (k : A -> result B) : result B :=
  match r with Ok a => k a | Err e => Err e end.

Record heap := Heap { buffer : list Z; tracker : Z }.

Inductive outcome (A : Type) :=
| Return (a : A) (h : heap)
| Throw (e : error) (h : heap).
Arguments Return {A} a h.
Arguments Throw {A} e h.

Definition M (A : Type) : Type := heap -> outcome A.

Definition ret {A} (a : A) : M A := fun h => Return a h.
Definition throw {A} (e : error) : M A := fun h => Throw e h.
Definition bind {A B} (m : M A) (k : A -> M B) : M B :=
  fun h => match m h with
           | Return a h' => k a h'
           | Throw e h' => Throw e h'
           end.
Definition lift {A} (r : result A) : M A :=
  match r with Ok a => ret a | Err e => throw e end.

Declare Scope js_scope.
Delimit Scope js_scope with js.
Notation "x <- m ;; k" := (bind m (fun x => k))
  (at level 100, m at next level, k at level 200, right associativity) : js_scope.
Notation "m ;; k" := (bind m (fun _ => k))
  (at level 100, k at level 200, right associativity) : js_scope.
Local Open Scope js_scope.

(** ** DataViewTracker *)

Module DataViewTracker.

Definition many (amount : Z) : M Z :=
  fun h => Return (tracker h) (Heap (buffer h) (tracker h + amount)).

Definition one : M Z :=
  fun h => Return (tracker h) (Heap (buffer h) (tracker h + 1)).

Definition reset : M unit :=
  fun h => Return tt (Heap (buffer h) 0).

End DataViewTracker.

(** ** Values *)

(** The values the codecs exchange with their callers.  A number is either
    integral ([VNum]) or a binary64 datum ([VFloat]); a string is its
    sequence of UTF-16 code units; a [Uint8Array] is its octets; an object is
    its own properties in iteration order. *)
Inductive value :=
| VUndefined
| VNum (n : Z)
| VFloat (f : spec_float)
| VBool (b : bool)
| VStr (s : list Z)
| VBytes (b : list Z)
| VArr (a : list value)
| VObj (o : list (string * value)).

(** ** Octets of a buffer *)

(** Big-endian octets of the low [8 * n] bits of [z], and their value. *)
Fixpoint be_bytes (n : nat) (z : Z) : list Z :=
  match n with
  | O => []
  | S k => (z / 2 ^ (8 * Z.of_nat k)) mod 256 :: be_bytes k z
  end.

Definition be_value (bs : list Z) : Z :=
  fold_left (fun acc b => acc * 256 + b) bs 0.

(** Two's complement reading of a [w]-bit pattern. *)
Definition signed (w : Z) (u : Z) : Z :=
  if u <? 2 ^ (w - 1) then u else u - 2 ^ w.

Definition in_bounds (off : Z) (n : nat) (buf : list Z) : bool :=
  (0 <=? off) && (off + Z.of_nat n <=? Z.of_nat (length buf)).

Definition read_bytes (off : Z) (n : nat) (buf : list Z) : list Z :=
  take n (drop (Z.to_nat off) buf).

Definition write_bytes (off : Z) (bs : list Z) (buf : list Z) : list Z :=
  take (Z.to_nat off) buf ++ bs ++ drop (Z.to_nat off + length bs) buf.

(** ** IEEE 754 interchange formats *)

Section IEEE.

(** [prec] bits of significand (hidden bit included), infinities at
    exponent [emax]; [ew] bits of biased exponent. *)
Variables (prec emax ew : Z).

Definition mw : Z := prec - 1.
Definition sign_bit (s : bool) : Z := if s then 2 ^ (mw + ew) else 0.

Definition bits_of_float (f : spec_float) : Z :=
  match f with
  | S754_zero s => sign_bit s
  | S754_infinity s => sign_bit s + (2 ^ ew - 1) * 2 ^ mw
  | S754_nan => (2 ^ ew - 1) * 2 ^ mw + 2 ^ (mw - 1)
  | S754_finite s m e =>
      if Zpos m <? 2 ^ mw
      then sign_bit s + Zpos m
      else sign_bit s + (e - emin prec emax + 1) * 2 ^ mw + (Zpos m - 2 ^ mw)
  end.

Definition float_of_bits (x : Z) : spec_float :=
  let s := Z.testbit x (mw + ew) in
  let e := (x / 2 ^ mw) mod 2 ^ ew in
  let m := x mod 2 ^ mw in
  if e =? 0 then
    match m with
    | Zpos p => S754_finite s p (emin prec emax)
    | _ => S754_zero s
    end
  else if e =? 2 ^ ew - 1 then
    if m =? 0 then S754_infinity s else S754_nan
  else
    match m + 2 ^ mw with
    | Zpos p => S754_finite s p (e + emin prec emax - 1)
    | _ => S754_nan
    end.

End IEEE.

(** A Number is a binary64 datum. *)
Definition number_of_Z (z : Z) : spec_float := binary_normalize 53 1024 z 0 false.

(** A binary32 datum read as a Number (every binary32 value is a binary64
    value; only the representation of the significand changes). *)
Definition widen32 (f : spec_float) : spec_float :=
  match f with
  | S754_finite s m e => binary_round 53 1024 s m e
  | _ => f
  end.

(** ** Conversions *)

(** A value used where the codecs expect an integral number (the static
    types admit numbers only; a non-integral number is outside the model). *)
Definition ToInteger (v : value) : result Z :=
  match v with
  | VNum n => Ok n
  | VBool b => Ok (if b then 1 else 0)
  | _ => Err TypeError
  end.

(** A value used where the codecs expect any number. *)
Definition ToNumber (v : value) : result spec_float :=
  match v with
  | VNum n => Ok (number_of_Z n)
  | VFloat f => Ok f
  | _ => Err TypeError
  end.

(** Truthiness, as the conditional operator sees it. *)
Definition ToBoolean (v : value) : bool :=
  match v with
  | VUndefined => false
  | VNum n => negb (n =? 0)
  | VFloat f =>
      match f with
      | S754_zero _ | S754_nan => false
      | _ => true
      end
  | VBool b => b
  | VStr s => negb (Nat.eqb (length s) 0)
  | VBytes _ | VArr _ | VObj _ => true
  end.

(** ** DataView *)

Module DataView.

Definition get (n : nat) (byteOffset : Z) : M (list Z) :=
  fun h =>
    if in_bounds byteOffset n (buffer h)
    then Return (read_bytes byteOffset n (buffer h)) h
    else Throw RangeError h.

Definition set (byteOffset : Z) (bs : list Z) : M unit :=
  fun h =>
    if in_bounds byteOffset (length bs) (buffer h)
    then Return tt (Heap (write_bytes byteOffset bs (buffer h)) (tracker h))
    else Throw RangeError h.

Definition getUintN (n : nat) (byteOffset : Z) : M value :=
  bs <- get n byteOffset ;; ret (VNum (be_value bs)).

Definition getIntN (n : nat) (byteOffset : Z) : M value :=
  bs <- get n byteOffset ;;
  ret (VNum (signed (8 * Z.of_nat n) (be_value bs))).

Definition setIntN (n : nat) (byteOffset : Z) (v : value) : M unit :=
  z <- lift (ToInteger v) ;; set byteOffset (be_bytes n z).

Definition getInt8 := getIntN 1.
Definition getInt16 := getIntN 2.
Definition getInt32 := getIntN 4.
Definition getUint8 := getUintN 1.
Definition getUint16 := getUintN 2.
Definition getUint32 := getUintN 4.

(** The signed and the unsigned setter of a width store the same octets:
    the value modulo 2^(8n). *)
Definition setInt8 := setIntN 1.
Definition setInt16 := setIntN 2.
Definition setInt32 := setIntN 4.
Definition setUint8 := setIntN 1.
Definition setUint16 := setIntN 2.
Definition setUint32 := setIntN 4.

Definition getFloat32 (byteOffset : Z) : M value :=
  bs <- get 4 byteOffset ;;
  ret (VFloat (widen32 (float_of_bits 24 128 8 (be_value bs)))).

Definition getFloat64 (byteOffset : Z) : M value :=
  bs <- get 8 byteOffset ;;
  ret (VFloat (float_of_bits 53 1024 11 (be_value bs))).

Definition setFloat64 (byteOffset : Z) (v : value) : M unit :=
  f <- lift (ToNumber v) ;;
  set byteOffset (be_bytes 8 (bits_of_float 53 1024 11 f)).

End DataView.

(** ** DataType *)

(** [DataSize<N>]: a number, or a function of the value. *)
Inductive DataSize :=
| Fixed (n : Z)
| Computed (f : value -> result Z).

Record DataType := {
  size : DataSize;
  encode : value -> M unit;
  decode : M value
}.

(** ** Primitive codecs *)

Import DataViewTracker.

Definition Int8 : DataType := {|
  size := Fixed 1;
  encode v := off <- one ;; DataView.setInt8 off v;
  decode := off <- one ;; DataView.getInt8 off
|}.

Definition Int16 : DataType := {|
  size := Fixed 2;
  encode v := off <- many 2 ;; DataView.setInt16 off v;
  decode := off <- many 2 ;; DataView.getInt16 off
|}.

Definition Int32 : DataType := {|
  size := Fixed 4;
  encode v := off <- many 4 ;; DataView.setInt32 off v;
  decode := off <- many 4 ;; DataView.getInt32 off
|}.

Definition UInt8 : DataType := {|
  size := Fixed 1;
  encode v := off <- one ;; DataView.setUint8 off v;
  decode := off <- one ;; DataView.getUint8 off
|}.

Definition UInt16 : DataType := {|
  size := Fixed 2;
  encode v := off <- many 2 ;; DataView.setUint16 off v;
  decode := off <- many 2 ;; DataView.getUint16 off
|}.

Definition UInt32 : DataType := {|
  size := Fixed 4;
  encode v := off <- many 4 ;; DataView.setUint32 off v;
  decode := off <- many 4 ;; DataView.getUint32 off
|}.

Definition Float32 : DataType := {|
  size := Fixed 4;
  encode v := off <- many 4 ;; DataView.setFloat64 off v;
  decode := off <- many 4 ;; DataView.getFloat32 off
|}.

Definition Float64 : DataType := {|
  size := Fixed 8;
  encode v := off <- many 8 ;; DataView.setFloat64 off v;
  decode := off <- many 8 ;; DataView.getFloat64 off
|}.

Definition Bool : DataType := {|
  size := Fixed 1;
  encode v := encode UInt8 (VNum (if ToBoolean v then 1 else 0));
  decode := b <- decode UInt8 ;;
            n <- lift (ToInteger b) ;;
            ret (VBool (n =? 1))
|}.

(** ** VarInt *)

Module VarIntLoops.

(** A [while (v >= 0x80) { ...; v >>= 7 }] loop tests its condition at most
    five times: the first shift leaves a 32-bit integer below 2^24. *)
Definition budget : nat := 6.

Fixpoint size_loop (fuel : nat) (value size : Z) : result Z :=
  match fuel with
  | O => Err Diverged
  | S fuel' =>
      if 0x80 <=? value
      then size_loop fuel' (JS.sar value 7) (size + 1)
      else Ok (size + 1)
  end.

Fixpoint encode_loop (fuel : nat) (v : Z) : M unit :=
  match fuel with
  | O => throw Diverged
  | S fuel' =>
      if 0x80 <=? v
      then encode UInt8 (VNum (JS.bor v 0x80)) ;;
           encode_loop fuel' (JS.sar v 7)
      else encode UInt8 (VNum v)
  end.

(** [for (let i = 0; i < 10; i++)]: [count] is [10 - i]. *)
Fixpoint decode_loop (count : nat) (i value bitOffset : Z) : M Z :=
  match count with
  | O => ret value
  | S count' =>
      b <- decode UInt8 ;;
      byte <- lift (ToInteger b) ;;
      if byte <? 0x80 then
        if (i =? 9) && (1 <? byte)
        then ret value
        else ret (JS.bor value (JS.shl byte bitOffset))
      else
        decode_loop count' (i + 1)
          (JS.bor value (JS.shl (JS.band byte 0x7f) bitOffset))
          (bitOffset + 7)
  end.

End VarIntLoops.

Definition VarInt : DataType := {|
  size := Computed (fun value =>
            rbind (ToInteger value) (fun n =>
            VarIntLoops.size_loop VarIntLoops.budget n 0));
  encode v := n <- lift (ToInteger v) ;;
              VarIntLoops.encode_loop VarIntLoops.budget n;
  decode := n <- VarIntLoops.decode_loop 10 0 0 0 ;; ret (VNum n)
|}.

(** [typeof s === 'number' ? s : s(value)] *)
Definition sizeOf (type : DataType) (v : value) : result Z :=
  match size type with
  | Fixed s => Ok s
  | Computed s => s v
  end.

(** [VarIntSize = VarInt.size] *)
Definition VarIntSize (v : value) : result Z := sizeOf VarInt v.

(** ** Loops and property access shared by the combinators *)

(** [for (let x of xs) body(x)] *)
Fixpoint forOf {A} (xs : list A) (body : A -> M unit) : M unit :=
  match xs with
  | [] => ret tt
  | x :: xs' => body x ;; forOf xs' body
  end.

(** [for (let x of xs) size += f(x)] *)
Fixpoint sumOf {A} (xs : list A) (f : A -> result Z) (size : Z) : result Z :=
  match xs with
  | [] => Ok size
  | x :: xs' => rbind (f x) (fun n => sumOf xs' f (size + n))
  end.

(** [for (let i = 0; i < count; i++) out[i] = body()], from index [i] on. *)
Fixpoint fillFrom (count i : nat) (body : M value) (out : list value)
  : M (list value) :=
  match count with
  | O => ret out
  | S count' => x <- body ;; fillFrom count' (S i) body (<[i := x]> out)
  end.

(** [new Array(count)] *)
Definition newArray (count : Z) : M (list value) :=
  if (0 <=? count) && (count <? 2 ^ 32)
  then ret (replicate (Z.to_nat count) VUndefined)
  else throw RangeError.

(** [v.length] and the elements a [for ... of] (or an index loop) visits. *)
Definition elements (v : value) : result (list value) :=
  match v with
  | VStr s => Ok (map VNum s)
  | VBytes b => Ok (map VNum b)
  | VArr a => Ok a
  | _ => Err TypeError
  end.

Definition lengthOf (v : value) : result Z :=
  rbind (elements v) (fun l => Ok (Z.of_nat (length l))).

(** [o[key]] and [o[key] = x] on the properties of an object. *)
Fixpoint assoc {A} (key : string) (o : list (string * A)) : option A :=
  match o with
  | [] => None
  | (k, x) :: o' => if decide (k = key) then Some x else assoc key o'
  end.

Fixpoint assign {A} (key : string) (x : A) (o : list (string * A))
  : list (string * A) :=
  match o with
  | [] => [(key, x)]
  | (k, y) :: o' =>
      if decide (k = key) then (k, x) :: o' else (k, y) :: assign key x o'
  end.

Definition getProp (o : value) (key : string) : value :=
  match o with
  | VObj props => default VUndefined (assoc key props)
  | _ => VUndefined
  end.

(** ** getSizeOf *)

Definition getSizeOf (values : list value) (type : DataType) : result Z :=
  match size type with
  | Fixed s => Ok (s * Z.of_nat (length values))
  | Computed s => sumOf values s 0
  end.

(** ** ByteArray and Str *)

(** [new Uint8Array(buffer, byteOffset, length)] *)
Definition newUint8Array (byteOffset len : Z) : M value :=
  fun h =>
    if (0 <=? len) && in_bounds byteOffset (Z.to_nat len) (buffer h)
    then Return (VBytes (read_bytes byteOffset (Z.to_nat len) (buffer h))) h
    else Throw RangeError h.

Definition lengthPrefixedSize (value : value) : result Z :=
  rbind (lengthOf value) (fun len =>
  rbind (VarIntSize (VNum len)) (fun n => Ok (n + len))).

Definition ByteArray : DataType := {|
  size := Computed lengthPrefixedSize;
  encode v :=
    len <- lift (lengthOf v) ;;
    encode VarInt (VNum len) ;;
    elms <- lift (elements v) ;;
    forOf elms (fun elm => encode UInt8 elm);
  decode :=
    sz <- decode VarInt ;;
    size <- lift (ToInteger sz) ;;
    off <- many size ;;
    newUint8Array off size
|}.

(** [String.fromCharCode.apply(null, arr)] *)
Definition fromCharCode (arr : value) : result value :=
  match arr with
  | VBytes b => Ok (VStr b)
  | _ => Err TypeError
  end.

Definition Str : DataType := {|
  size := Computed lengthPrefixedSize;
  encode v :=
    len <- lift (lengthOf v) ;;
    encode VarInt (VNum len) ;;
    units <- lift (elements v) ;;
    forOf units (fun c => encode UInt8 c);
  decode :=
    arr <- decode ByteArray ;;
    lift (fromCharCode arr)
|}.

(** ** StructDefinition and PacketDefinition *)

(** [StructLayout]: an object mapping field names to data types. *)
Definition StructLayout : Type := list (string * DataType).
Definition StructKeys : Type := list string.

Module StructDefinition.

(** A [DefinitionField] is the pair [[key, struct[key]]]; the second
    component is undefined when the layout has no such key.  A slot of the
    [fields] array is empty until the constructor assigns it. *)
Definition DefinitionField : Type := string * option DataType.
Definition slot : Type := option DefinitionField.

Record t := { fields : list slot }.

(** The constructor's loop, at index [i] with [rest] the keys from [i]. *)
Fixpoint fillFields (struct : StructLayout) (rest : StructKeys) (i : nat)
    (fields : list slot) : list slot :=
  match rest with
  | [] => fields
  | key :: rest' =>
      fillFields struct rest' (S i)
        (<[i := Some (key, assoc key struct)]> fields)
  end.

Definition new (struct : StructLayout) (keys : StructKeys) : t :=
  {| fields := fillFields struct keys 0 (replicate (length keys) None) |}.

(** [let [key, type] of this.fields], and the use of [type]. *)
Definition field (s : slot) : result (string * DataType) :=
  match s with
  | Some (key, Some type) => Ok (key, type)
  | _ => Err TypeError
  end.

Fixpoint computeSizeFrom (fs : list slot) (packet : value) (size : Z)
  : result Z :=
  match fs with
  | [] => Ok size
  | f :: fs' =>
      rbind (field f) (fun kt =>
      rbind (sizeOf kt.2 (getProp packet kt.1)) (fun s =>
      computeSizeFrom fs' packet (size + s)))
  end.

Definition computeSize (self : t) (packet : value) : result Z :=
  computeSizeFrom (fields self) packet 0.

Fixpoint decodeFrom (fs : list slot) (out : list (string * value))
  : M value :=
  match fs with
  | [] => ret (VObj out)
  | f :: fs' =>
      kt <- lift (field f) ;;
      x <- decode kt.2 ;;
      decodeFrom fs' (assign kt.1 x out)
  end.

Definition decode (self : t) : M value := decodeFrom (fields self) [].

Definition encode (self : t) (struct : value) : M unit :=
  forOf (fields self) (fun f =>
    kt <- lift (field f) ;;
    encode kt.2 (getProp struct kt.1)).

End StructDefinition.

Module PacketDefinition.

Record t := { id : Z; super : StructDefinition.t }.

Definition new (id : Z) (struct : StructLayout) (keys : StructKeys) : t :=
  {| id := id; super := StructDefinition.new struct keys |}.

(** [new ArrayBuffer(n)] with [new DataView(buffer)] over it: the view the
    rest of [create] writes through. *)
Definition newArrayBuffer (n : Z) : M unit :=
  fun h =>
    if 0 <=? n
    then Return tt (Heap (replicate (Z.to_nat n) 0) (tracker h))
    else Throw RangeError h.

Definition create (self : t) (data : value) : M (list Z) :=
  n <- lift (rbind (VarIntSize (VNum (id self))) (fun a =>
             rbind (StructDefinition.computeSize (super self) data) (fun b =>
             Ok (a + b)))) ;;
  newArrayBuffer n ;;
  encode VarInt (VNum (id self)) ;;
  StructDefinition.encode (super self) data ;;
  reset ;;
  fun h => Return (buffer h) h.

End PacketDefinition.

(** ** Struct, StructArray and ArrayType *)

Definition Struct (struct : StructLayout) (keys : StructKeys) : DataType :=
  let definition := StructDefinition.new struct keys in
  {| size := Computed (fun value => StructDefinition.computeSize definition value);
     encode v := StructDefinition.encode definition v;
     decode := StructDefinition.decode definition |}.

Definition decodeArray (body : M value) : M value :=
  c <- decode VarInt ;;
  count <- lift (ToInteger c) ;;
  out <- newArray count ;;
  out' <- fillFrom (Z.to_nat count) 0 body out ;;
  ret (VArr out').

Definition StructArray (struct : StructLayout) (keys : StructKeys) : DataType :=
  let definition := StructDefinition.new struct keys in
  {| size := Computed (fun value =>
       rbind (elements value) (fun elms =>
       rbind (sumOf elms (StructDefinition.computeSize definition) 0) (fun size =>
       rbind (VarIntSize (VNum (Z.of_nat (length elms)))) (fun n =>
       Ok (n + size)))));
     encode v :=
       len <- lift (lengthOf v) ;;
       encode VarInt (VNum len) ;;
       elms <- lift (elements v) ;;
       forOf elms (fun elm => StructDefinition.encode definition elm);
     decode := decodeArray (StructDefinition.decode definition) |}.

Definition ArrayType (type : DataType) : DataType :=
  {| size := Computed (fun value =>
       rbind (elements value) (fun elms =>
       rbind (getSizeOf elms type) (fun size =>
       rbind (VarIntSize (VNum (Z.of_nat (length elms)))) (fun n =>
       Ok (size + n)))));
     encode v :=
       len <- lift (lengthOf v) ;;
       encode VarInt (VNum len) ;;
       elms <- lift (elements v) ;;
       forOf elms (fun value => encode type value);
     decode := decodeArray (decode type) |}.

(** ** BinarySocket: the receiving side (socket.ts, [onmessage]) *)

Module BinarySocket.

(** What the handler hands to the listeners of a packet: its identifier
    and the decoded struct, or nothing when no definition is registered
    for the identifier.  The heap is the received buffer with the socket's
    read tracker. *)
Definition onmessage (definitions : gmap Z PacketDefinition.t)
  : M (option (Z * value)) :=
  i <- decode VarInt ;;
  id <- lift (ToInteger i) ;;
  r <- match definitions !! id with
       | Some definition =>
           out <- StructDefinition.decode (PacketDefinition.super definition) ;;
           ret (Some (id, out))
       | None => ret None
       end ;;
  reset ;;
  ret r.

End BinarySocket.

(** Running a codec on a buffer with the tracker at a given offset. *)
Definition run {A} (m : M A) (buf : list Z) (off : Z) : outcome A :=
  m (Heap buf off).

(** ** Specification vocabulary *)

(** [n] octets are available in [buf] from offset [off] on. *)
Definition room (buf : list Z) (off : Z) (n : nat) : Prop :=
  0 <= off /\ off + Z.of_nat n <= Z.of_nat (length buf).

(** The octets of [buf] from offset [off] on start with [bs]. *)
Definition holds_at (buf : list Z) (off : Z) (bs : list Z) : Prop :=
  room buf off (length bs) /\ read_bytes off (length bs) buf = bs.

(** [m] stores exactly the octets [bs] at the tracker and advances the
    tracker over them, wherever there is room for them. *)
Definition writes (m : M unit) (bs : list Z) : Prop :=
  forall buf off,
    room buf off (length bs) ->
    m (Heap buf off)
    = Return tt (Heap (write_bytes off bs buf) (off + Z.of_nat (length bs))).

(** [m] consumes exactly the octets [bs] found at the tracker, leaves the
    buffer alone and returns [a]. *)
Definition reads {A} (m : M A) (bs : list Z) (a : A) : Prop :=
  forall buf off,
    holds_at buf off bs ->
    m (Heap buf off) = Return a (Heap buf (off + Z.of_nat (length bs))).

(** The octets [VarInt.encode] stores, read off its loop. *)
Fixpoint varintBytes (fuel : nat) (v : Z) : list Z :=
  match fuel with
  | O => []
  | S fuel' =>
      if 0x80 <=? v
      then JS.bor v 0x80 mod 256 :: varintBytes fuel' (JS.sar v 7)
      else [v mod 256]
  end.

Definition varint (v : Z) : list Z := varintBytes VarIntLoops.budget v.


(** The octet a code unit (or an element of a [Uint8Array]) is stored as. *)
Definition octetOf (x : value) : list Z :=
  match x with
  | VNum z => [z mod 256]
  | _ => []
  end.

(** The sum of a list of sizes. *)
Definition sumZ (l : list Z) : Z := foldr Z.add 0 l.

(** The codec [type] handles [v] exactly through the octets [bs]: its size
    rule gives their number, its encoder stores them and its decoder reads
    [v] back from them. *)
Definition exact_codec (type : DataType) (v : value) (bs : list Z) : Prop :=
  sizeOf type v = Ok (Z.of_nat (length bs)) /\
  writes (encode type v) bs /\
  reads (decode type) bs v.

(** Encoding [v] at offset [off] of [buf], then decoding from the same
    offset of the buffer the encoder left: [decode(encode(v))]. *)
Definition roundtrip (type : DataType) (v : value) (buf : list Z) (off : Z)
  : outcome value :=
  match run (encode type v) buf off with
  | Return _ h => run (decode type) (buffer h) off
  | Throw e h => Throw e h
  end.

(** [a == b] on numbers. *)
Definition numEq (a b : value) : bool :=
  match ToNumber a, ToNumber b with
  | Ok x, Ok y => SFeqb x y
  | _, _ => false
  end.

(** The code units of a string literal. *)
Definition codeUnits (s : string) : list Z :=
  map (fun c => Z.of_nat (Ascii.nat_of_ascii c)) (String.list_ascii_of_string s).

(** A fresh buffer of [n] octets, as [new ArrayBuffer(n)] gives it. *)
Definition zeros (n : nat) : list Z := replicate n 0.

(** ** The VarInt rules in the words of the specification (section 4.3)

    Over unbounded non-negative integers: a right-shift by 7 bits is
    [Z.shiftr _ 7], and the masks are [Z.land] and [Z.lor]. *)
Module Spec.

(** An iteration bound: shifting by 7 bits shortens the value. *)
Definition steps (value : Z) : nat := S (Z.to_nat (Z.log2 value)).

(** "the number of right-shifts by 7 bits required to bring the value
    below 0x80" *)
Fixpoint shiftsBelow (fuel : nat) (value : Z) : Z :=
  match fuel with
  | O => 0
  | S fuel' =>
      if 0x80 <=? value then 1 + shiftsBelow fuel' (Z.shiftr value 7) else 0
  end.

(** "... plus one" *)
Definition size (value : Z) : Z := shiftsBelow (steps value) value + 1.

(** "while value >= 0x80, emit (value & 0x7f) | 0x80 and right-shift value
    by 7; finally emit the remaining value as-is" *)
Fixpoint emit (fuel : nat) (value : Z) : list Z :=
  match fuel with
  | O => []
  | S fuel' =>
      if 0x80 <=? value
      then Z.lor (Z.land value 0x7f) 0x80 :: emit fuel' (Z.shiftr value 7)
      else [value]
  end.

Definition bytes (value : Z) : list Z := emit (steps value) value.

End Spec.

(** ** Sample definitions *)

(** The packet of the README: identifier 2, a string [name] and an 8-bit
    unsigned [user], in that order. *)
Definition TestPacket : PacketDefinition.t :=
  PacketDefinition.new 2 [("name", Str); ("user", UInt8)] ["name"; "user"].

Definition TestData : value :=
  VObj [("name", VStr (codeUnits "ab")); ("user", VNum 5)].

(** A packet whose last field is a [Float32]. *)
Definition FloatPacket : PacketDefinition.t :=
  PacketDefinition.new 1 [("x", Float32)] ["x"].

(** The numbers 1 and 1.875. *)
Definition one_f : spec_float := S754_finite false 4503599627370496 (-52).
Definition one_875_f : spec_float := S754_finite false 8444249301319680 (-52).

(** ** Vocabulary of the further properties *)

(** A value reduced to [w] bits: as an unsigned pattern, and as the two's
    complement number that pattern stands for. *)
Definition wrapUnsigned (w v : Z) : Z := v mod 2 ^ w.
Definition wrapSigned (w v : Z) : Z := (v + 2 ^ (w - 1)) mod 2 ^ w - 2 ^ (w - 1).

(** The codec [type] turns [v] into the octets [bs] and these octets into
    [v']: its size rule gives their number, its encoder stores them, its
    decoder reads [v'] from them. *)
Definition transcodes (type : DataType) (v : value) (bs : list Z) (v' : value)
  : Prop :=
  sizeOf type v = Ok (Z.of_nat (length bs)) /\
  writes (encode type v) bs /\
  reads (decode type) bs v'.

(** The signed 32-bit range. *)
Definition int32 (z : Z) : Prop := - 2 ^ 31 <= z < 2 ^ 31.

(** The number -2.5. *)
Definition minus_2_5_f : spec_float := S754_finite true 5629499534213120 (-51).

(** ** MapType (data.ts)

    The keys of an object are strings; [Object.keys] lists them in property
    order: the array indices in ascending order first, the other keys after
    them in the order of their creation.  A [VObj] holds the properties in
    that order, and an assignment [o[key] = x] keeps it.

    [Object.keys] hands strings to the encoder of the key type whatever
    that type is.  Under [Str] this is what the encoder expects; under a
    numeric key type JavaScript converts the string back to a number inside
    the codec, which the conversions of this embedding do not do (they give
    [TypeError]): encoding a map under a numeric key type is outside the
    embedding, decoding one is inside. *)

(** The digit an ASCII character stands for. *)
Definition digitOf (c : Ascii.ascii) : option Z :=
  let n := Z.of_nat (Ascii.nat_of_ascii c) in
  if (48 <=? n) && (n <=? 57) then Some (n - 48) else None.

Fixpoint digitsValue (s : string) (acc : Z) : option Z :=
  match s with
  | EmptyString => Some acc
  | String c s' =>
      match digitOf c with
      | Some d => digitsValue s' (acc * 10 + d)
      | None => None
      end
  end.

(** An array index is the canonical numeral (no leading zero) of an integer
    from 0 to 2^32 - 2. *)
Definition arrayIndex (key : string) : option Z :=
  match key with
  | EmptyString => None
  | String c rest =>
      if bool_decide (c = "0"%char) && negb (bool_decide (rest = EmptyString))
      then None
      else match digitsValue key 0 with
           | Some n => if n <? 2 ^ 32 - 1 then Some n else None
           | None => None
           end
  end.

(** [key] is listed before [k] whichever was created first. *)
Definition precedes (key k : string) : bool :=
  match arrayIndex key, arrayIndex k with
  | Some i, Some j => i <? j
  | Some _, None => true
  | None, _ => false
  end.

(** A new property takes its place in the property order. *)
Fixpoint insertProp (key : string) (x : value) (o : list (string * value))
  : list (string * value) :=
  match o with
  | [] => [(key, x)]
  | (k, y) :: o' =>
      if precedes key k
      then (key, x) :: (k, y) :: o'
      else (k, y) :: insertProp key x o'
  end.

(** [o[key] = x] on an object created by [{}]: an existing property keeps
    its place, a new one is inserted; assigning to ["__proto__"] reaches the
    setter inherited from [Object.prototype] and creates no property. *)
Definition setProp (key : string) (x : value) (o : list (string * value))
  : list (string * value) :=
  if decide (key = "__proto__") then o
  else match assoc key o with
       | Some _ => assign key x o
       | None => insertProp key x o
       end.

(** The string of a sequence of code units (a Rocq string holds octets: a
    code unit above 255, which no decoder of this library produces, is
    reduced modulo 256). *)
Definition stringOfUnits (s : list Z) : string :=
  String.string_of_list_ascii
    (map (fun c => Ascii.ascii_of_nat (Z.to_nat c)) s).

(** The property key a decoded map key stands for: a string is the key, an
    integral number its decimal numeral (the static types admit strings and
    numbers only; a non-integral number is outside the model). *)
Definition ToPropertyKey (key : value) : result string :=
  match key with
  | VStr s => Ok (stringOfUnits s)
  | VNum n => Ok (DecimalString.NilZero.string_of_int (Z.to_int n))
  | _ => Err TypeError
  end.

(** [Object.keys(value)] and [Object.values(value)] (the static types admit
    records only; another value is outside the model). *)
Definition objectKeys (v : value) : result (list string) :=
  match v with
  | VObj props => Ok props.*1
  | _ => Err TypeError
  end.

Definition objectValues (v : value) : result (list value) :=
  match v with
  | VObj props => Ok props.*2
  | _ => Err TypeError
  end.

(** A key as the key type's encoder receives it: a string. *)
Definition keyString (key : string) : value := VStr (codeUnits key).

(** [for (let i = 0; i < length; i++) { key = ...; out[key] = ... }] *)
Fixpoint decodeEntries (count : nat) (keyType valueType : DataType)
    (out : list (string * value)) : M value :=
  match count with
  | O => ret (VObj out)
  | S count' =>
      key <- decode keyType ;;
      x <- decode valueType ;;
      p <- lift (ToPropertyKey key) ;;
      decodeEntries count' keyType valueType (setProp p x out)
  end.

Definition MapType (keyType valueType : DataType) : DataType :=
  {| size := Computed (fun value =>
       rbind (objectKeys value) (fun keys =>
       rbind (VarIntSize (VNum (Z.of_nat (length keys)))) (fun n =>
       rbind (getSizeOf (map keyString keys) keyType) (fun a =>
       rbind (objectValues value) (fun values =>
       rbind (getSizeOf values valueType) (fun b =>
       Ok (n + a + b)))))));
     encode v :=
       keys <- lift (objectKeys v) ;;
       encode VarInt (VNum (Z.of_nat (length keys))) ;;
       forOf keys (fun key =>
         let value := getProp v key in
         encode keyType (keyString key) ;;
         encode valueType value);
     decode :=
       l <- decode VarInt ;;
       length <- lift (ToInteger l) ;;
       decodeEntries (Z.to_nat length) keyType valueType [] |}.

(** A property list in property order, with distinct keys, none of them
    ["__proto__"]: each key is new to those before it and none of those
    should come after it. *)
Fixpoint propertyOrderFrom (before : list string) (keys : list string) : Prop :=
  match keys with
  | [] => True
  | k :: keys' =>
      k <> "__proto__" /\ (k ∉ before) /\
      Forall (fun b => precedes k b = false) before /\
      propertyOrderFrom (before ++ [k]) keys'
  end.

Definition propertyOrder (keys : list string) : Prop := propertyOrderFrom [] keys.


(** ** BinarySocket: the state a socket keeps between calls (socket.ts)

    A listener is a function object of the caller: the socket stores it,
    compares it by identity and calls it.  It is modelled by its identity;
    [onmessage] below gives the calls the handler makes, in order, for
    listeners that return normally and leave the socket alone. *)
Definition PacketListener : Type := nat.

Module SocketState.

Record t := {
  definitions : gmap Z PacketDefinition.t;
  packetListeners : gmap Z (list PacketListener);
  writeTracker : Z;
  readTracker : Z }.

(** [new BinarySocket(url)] *)
Definition new : t :=
  {| definitions := ∅; packetListeners := ∅; writeTracker := 0; readTracker := 0 |}.

Definition setDefinitions (s : t) (d : gmap Z PacketDefinition.t) : t :=
  {| definitions := d; packetListeners := packetListeners s;
     writeTracker := writeTracker s; readTracker := readTracker s |}.

Definition setPacketListeners (s : t) (l : gmap Z (list PacketListener)) : t :=
  {| definitions := definitions s; packetListeners := l;
     writeTracker := writeTracker s; readTracker := readTracker s |}.

Definition setWriteTracker (s : t) (off : Z) : t :=
  {| definitions := definitions s; packetListeners := packetListeners s;
     writeTracker := off; readTracker := readTracker s |}.

Definition setReadTracker (s : t) (off : Z) : t :=
  {| definitions := definitions s; packetListeners := packetListeners s;
     writeTracker := writeTracker s; readTracker := off |}.

(** [this.definitions[packet.id] = packet] *)
Definition definePacket (s : t) (packet : PacketDefinition.t) : t :=
  setDefinitions s (<[PacketDefinition.id packet := packet]> (definitions s)).

Definition definePackets (s : t) (packets : list PacketDefinition.t) : t :=
  foldl definePacket s packets.

Definition addListener (s : t) (definition : PacketDefinition.t)
    (handler : PacketListener) : t :=
  let id := PacketDefinition.id definition in
  match packetListeners s !! id with
  | Some listeners =>
      setPacketListeners s (<[id := listeners ++ [handler]]> (packetListeners s))
  | None => setPacketListeners s (<[id := [handler]]> (packetListeners s))
  end.

(** [handler] is optional: without it every listener of the identifier is
    removed. *)
Definition removeListener (s : t) (definition : PacketDefinition.t)
    (handler : option PacketListener) : t :=
  let id := PacketDefinition.id definition in
  match packetListeners s !! id with
  | Some listeners =>
      match handler with
      | Some h =>
          setPacketListeners s
            (<[id := filter (fun v => v <> h) listeners]> (packetListeners s))
      | None => setPacketListeners s (<[id := []]> (packetListeners s))
      end
  | None => s
  end.

(** [createBuffer], and [send] up to handing the buffer to the WebSocket:
    [definition.create(this.writeTracker, data)]. *)
Definition createBuffer (s : t) (definition : PacketDefinition.t) (data : value)
  : result (list Z) * t :=
  match PacketDefinition.create definition data (Heap [] (writeTracker s)) with
  | Return buffer h => (Ok buffer, setWriteTracker s (tracker h))
  | Throw e h => (Err e, setWriteTracker s (tracker h))
  end.

(** The message handler on the octets of a message: the calls
    [listener(out)] it makes. *)
Definition onmessage (s : t) (data : list Z)
  : result (list (PacketListener * value)) * t :=
  match BinarySocket.onmessage (definitions s) (Heap data (readTracker s)) with
  | Return r h =>
      (Ok match r with
          | Some (id, out) =>
              map (fun listener => (listener, out))
                  (default [] (packetListeners s !! id))
          | None => []
          end,
       setReadTracker s (tracker h))
  | Throw e h => (Err e, setReadTracker s (tracker h))
  end.

End SocketState.


(** * Properties *)

(** ** Buffers *)

Section Buffers.

Implicit Types (buf bs : list Z) (off : Z).

Lemma length_write_bytes buf off bs :
  room buf off (length bs) ->
  length (write_bytes off bs buf) = length buf.
Proof.
  intros [H0 H1]. unfold write_bytes.
  rewrite !length_app, length_take, length_drop. lia.
Qed.


Lemma write_bytes_app buf off bs1 bs2 :
  room buf off (length (bs1 ++ bs2)) ->
  write_bytes (off + Z.of_nat (length bs1)) bs2 (write_bytes off bs1 buf)
  = write_bytes off (bs1 ++ bs2) buf.
Proof.
  intros [H0 H1]. rewrite length_app in H1. unfold write_bytes.
  replace (Z.to_nat (off + Z.of_nat (length bs1)))
    with (Z.to_nat off + length bs1)%nat by lia.
  set (n := Z.to_nat off).
  assert (Hn : length (take n buf) = n) by (rewrite length_take; lia).
  rewrite (app_assoc (take n buf) bs1).
  rewrite take_app_length' by (rewrite length_app; lia).
  rewrite drop_app_add' by (rewrite length_app; lia).
  rewrite drop_drop, length_app, <- !app_assoc.
  do 4 f_equal. lia.
Qed.

Lemma room_app buf off bs1 bs2 :
  room buf off (length (bs1 ++ bs2)) ->
  room buf off (length bs1) /\
  room (write_bytes off bs1 buf) (off + Z.of_nat (length bs1)) (length bs2).
Proof.
  intros [H0 H1]. rewrite length_app in H1.
  assert (R1 : room buf off (length bs1)) by (split; lia).
  split; [exact R1|]. split; [lia|].
  rewrite length_write_bytes by exact R1. lia.
Qed.


Lemma holds_at_app buf off bs1 bs2 :
  holds_at buf off (bs1 ++ bs2) ->
  holds_at buf off bs1 /\ holds_at buf (off + Z.of_nat (length bs1)) bs2.
Proof.
  intros [[H0 H1] H]. rewrite length_app in *. unfold read_bytes in *.
  rewrite <- take_take_drop in H. rewrite drop_drop in H.
  assert (L : length (take (length bs1) (drop (Z.to_nat off) buf)) = length bs1)
    by (rewrite length_take, length_drop; lia).
  apply app_inj_1 in H as [E1 E2]; [|exact L].
  repeat split; try lia; unfold read_bytes; [exact E1|].
  replace (Z.to_nat (off + Z.of_nat (length bs1)))
    with (Z.to_nat off + length bs1)%nat by lia.
  exact E2.
Qed.

Lemma holds_at_cons buf off b bs :
  holds_at buf off (b :: bs) ->
  buf !! Z.to_nat off = Some b /\ holds_at buf (off + 1) bs.
Proof.
  intros H. apply (holds_at_app buf off [b] bs) in H as [[_ H1] H2].
  split; [|exact H2]. unfold read_bytes in H1. simpl in H1.
  destruct (drop (Z.to_nat off) buf) as [|x l] eqn:E; [discriminate|].
  simpl in H1. rewrite take_0 in H1. injection H1 as ->.
  rewrite <- (Nat.add_0_r (Z.to_nat off)), <- lookup_drop, E. reflexivity.
Qed.

End Buffers.

(** ** Composition of codecs *)

Section Composition.

Lemma writes_ret : writes (ret tt) [].
Proof.
  intros buf off [H0 H1]. unfold ret, write_bytes. simpl.
  rewrite Nat.add_0_r, take_drop, Z.add_0_r. reflexivity.
Qed.

Lemma writes_bind (m1 m2 : M unit) bs1 bs2 :
  writes m1 bs1 -> writes m2 bs2 -> writes (m1 ;; m2) (bs1 ++ bs2).
Proof.
  intros W1 W2 buf off R. destruct (room_app _ _ _ _ R) as [R1 R2].
  unfold bind. rewrite (W1 _ _ R1), (W2 _ _ R2).
  rewrite write_bytes_app by exact R. rewrite length_app. do 2 f_equal. lia.
Qed.

Lemma writes_forOf {A} (body : A -> M unit) (enc : A -> list Z) xs :
  (forall x, x ∈ xs -> writes (body x) (enc x)) ->
  writes (forOf xs body) (concat (map enc xs)).
Proof.
  induction xs as [|x xs IH]; intros H; simpl.
  - apply writes_ret.
  - apply writes_bind.
    + apply H. left.
    + apply IH. intros y Hy. apply H. right. exact Hy.
Qed.

Lemma reads_ret {A} (a : A) : reads (ret a) [] a.
Proof. intros buf off _. unfold ret. simpl. rewrite Z.add_0_r. reflexivity. Qed.

Lemma reads_bind {A B} (m : M A) (k : A -> M B) bs1 bs2 a b :
  reads m bs1 a -> reads (k a) bs2 b -> reads (x <- m ;; k x) (bs1 ++ bs2) b.
Proof.
  intros R1 R2 buf off H. apply holds_at_app in H as [H1 H2].
  unfold bind. rewrite (R1 _ _ H1), (R2 _ _ H2).
  rewrite length_app. do 2 f_equal. lia.
Qed.


End Composition.

(** ** DataView accessors and the fixed-width codecs *)

Section Primitives.

Lemma length_be_bytes n z : length (be_bytes n z) = n.
Proof. induction n; simpl; congruence. Qed.

Lemma be_fold_shift bs acc :
  fold_left (fun a b => a * 256 + b) bs acc
  = acc * 256 ^ Z.of_nat (length bs) + be_value bs.
Proof.
  unfold be_value. revert acc.
  induction bs as [|b bs IH]; intros acc; simpl length; simpl fold_left.
  - lia.
  - rewrite (IH (acc * 256 + b)), (IH (0 * 256 + b)).
    replace (Z.of_nat (S (length bs))) with (Z.of_nat (length bs) + 1) by lia.
    rewrite Z.pow_add_r by lia. lia.
Qed.

Lemma be_value_app bs1 bs2 :
  be_value (bs1 ++ bs2)
  = be_value bs1 * 256 ^ Z.of_nat (length bs2) + be_value bs2.
Proof.
  unfold be_value at 1. rewrite fold_left_app. apply be_fold_shift.
Qed.

Lemma be_value_be_bytes n z :
  be_value (be_bytes n z) = z mod 2 ^ (8 * Z.of_nat n).
Proof.
  induction n as [|n IH].
  - simpl. rewrite Z.mod_1_r. reflexivity.
  - change (be_bytes (S n) z)
      with ([(z / 2 ^ (8 * Z.of_nat n)) mod 256] ++ be_bytes n z).
    rewrite be_value_app, IH, length_be_bytes.
    change (be_value [(z / 2 ^ (8 * Z.of_nat n)) mod 256])
      with (0 * 256 + (z / 2 ^ (8 * Z.of_nat n)) mod 256).
    replace (8 * Z.of_nat (S n)) with (8 * Z.of_nat n + 8) by lia.
    rewrite Z.pow_add_r by lia.
    replace (256 ^ Z.of_nat n) with (2 ^ (8 * Z.of_nat n))
      by (rewrite Z.pow_mul_r by lia; reflexivity).
    change (2 ^ 8) with 256.
    rewrite (Z.rem_mul_r z (2 ^ (8 * Z.of_nat n)) 256) by lia.
    lia.
Qed.

Lemma DataView_set_writes off bs buf t :
  room buf off (length bs) ->
  DataView.set off bs (Heap buf t) = Return tt (Heap (write_bytes off bs buf) t).
Proof.
  intros [H0 H1]. unfold DataView.set, in_bounds. simpl.
  destruct (Z.leb_spec 0 off); [|lia].
  destruct (Z.leb_spec (off + Z.of_nat (length bs)) (Z.of_nat (length buf))); [|lia].
  reflexivity.
Qed.

Lemma DataView_get_reads off bs buf t :
  holds_at buf off bs ->
  DataView.get (length bs) off (Heap buf t) = Return bs (Heap buf t).
Proof.
  intros [[H0 H1] H]. unfold DataView.get, in_bounds. simpl.
  destruct (Z.leb_spec 0 off); [|lia].
  destruct (Z.leb_spec (off + Z.of_nat (length bs)) (Z.of_nat (length buf))); [|lia].
  simpl. rewrite H. reflexivity.
Qed.

(** A fixed-width integer store: [n] big-endian octets at the tracker. *)
Lemma setIntN_writes n z :
  writes (off <- many (Z.of_nat n) ;; DataView.setIntN n off (VNum z))
         (be_bytes n z).
Proof.
  intros buf off R. unfold bind, many, DataView.setIntN, bind, lift. simpl.
  unfold ret. rewrite DataView_set_writes by exact R.
  rewrite length_be_bytes. reflexivity.
Qed.

Lemma getUintN_reads n bs :
  length bs = n ->
  reads (off <- many (Z.of_nat n) ;; DataView.getUintN n off)
        bs (VNum (be_value bs)).
Proof.
  intros <- buf off H. unfold bind, many, DataView.getUintN, bind. simpl.
  rewrite DataView_get_reads by exact H. reflexivity.
Qed.

Lemma getIntN_reads n bs :
  length bs = n ->
  reads (off <- many (Z.of_nat n) ;; DataView.getIntN n off)
        bs (VNum (signed (8 * Z.of_nat n) (be_value bs))).
Proof.
  intros <- buf off H. unfold bind, many, DataView.getIntN, bind. simpl.
  rewrite DataView_get_reads by exact H. reflexivity.
Qed.

Lemma UInt8_writes z : writes (encode UInt8 (VNum z)) [z mod 256].
Proof.
  replace [z mod 256] with (be_bytes 1 z)
    by (simpl; rewrite Z.div_1_r; reflexivity).
  exact (setIntN_writes 1 z).
Qed.

Lemma UInt8_reads b : reads (decode UInt8) [b] (VNum b).
Proof. exact (getUintN_reads 1 [b] eq_refl). Qed.

End Primitives.

(** ** The 32-bit operators on small operands *)

Section Int32.

Import JS.

Lemma ToInt32_small z : - 2 ^ 31 <= z < 2 ^ 31 -> ToInt32 z = z.
Proof. intros H. unfold ToInt32. rewrite Z.mod_small by lia. lia. Qed.

Lemma ToInt32_range z : - 2 ^ 31 <= ToInt32 z < 2 ^ 31.
Proof. unfold ToInt32. pose proof (Z.mod_pos_bound (z + 2 ^ 31) (2 ^ 32)). lia. Qed.

Lemma ToInt32_mod z k : 0 <= k <= 31 -> ToInt32 z mod 2 ^ k = z mod 2 ^ k.
Proof.
  intros H. unfold ToInt32.
  assert (P : 0 < 2 ^ k) by (apply Z.pow_pos_nonneg; lia).
  assert (E32 : 2 ^ 32 = 2 ^ k * 2 ^ (32 - k))
    by (rewrite <- Z.pow_add_r by lia; f_equal; lia).
  assert (E31 : 2 ^ 31 = 2 ^ k * 2 ^ (31 - k))
    by (rewrite <- Z.pow_add_r by lia; f_equal; lia).
  assert (Q : 0 < 2 ^ (32 - k)) by (apply Z.pow_pos_nonneg; lia).
  rewrite Zminus_mod.
  rewrite E32 at 1. rewrite Z.rem_mul_r by lia.
  rewrite (Z.mul_comm (2 ^ k)), Z.mod_add by lia. rewrite Z.mod_mod by lia.
  rewrite <- Zminus_mod. f_equal. lia.
Qed.

Lemma sar7_small v : - 2 ^ 31 <= v < 2 ^ 31 -> sar v 7 = v / 128.
Proof.
  intros H. unfold sar. rewrite ToInt32_small by exact H.
  change (shiftCount 7) with 7. rewrite Z.shiftr_div_pow2 by lia. reflexivity.
Qed.

Lemma sar7_range v : - 2 ^ 24 <= sar v 7 < 2 ^ 24.
Proof.
  unfold sar. change (shiftCount 7) with 7. rewrite Z.shiftr_div_pow2 by lia.
  pose proof (ToInt32_range v) as R. change (2 ^ 7) with 128.
  split.
  - apply Z.div_le_lower_bound; lia.
  - apply Z.div_lt_upper_bound; lia.
Qed.

Lemma lor_disjoint a y k :
  0 <= k -> 0 <= a < 2 ^ k -> Z.lor a (y * 2 ^ k) = a + y * 2 ^ k.
Proof.
  intros Hk Ha. symmetry. rewrite Z.add_comm, Z.lor_comm.
  apply Z.add_nocarry_lor. apply Z.bits_inj'. intros n Hn.
  rewrite Z.land_spec, Z.bits_0.
  destruct (Z.lt_ge_cases n k).
  - rewrite Z.mul_pow2_bits_low by lia. reflexivity.
  - destruct (Z.eq_dec a 0) as [->|]; [rewrite Z.bits_0; apply andb_false_r|].
    rewrite (Z.bits_above_log2 a n); [apply andb_false_r|lia|].
    apply Z.lt_le_trans with k; [|lia]. apply Z.log2_lt_pow2; lia.
Qed.

Lemma bor_0x80_low v : bor v 0x80 mod 256 = v mod 128 + 128.
Proof.
  unfold bor. rewrite (ToInt32_small 0x80) by lia.
  change 128 with (2 ^ 7). change 256 with (2 ^ 8).
  rewrite <- (ToInt32_mod v 7) by lia. set (x := ToInt32 v).
  replace (x mod 2 ^ 7 + 2 ^ 7) with (x mod 2 ^ 7 + 1 * 2 ^ 7) by lia.
  rewrite <- lor_disjoint by (try lia; apply Z.mod_pos_bound; lia).
  rewrite Z.mul_1_l.
  apply Z.bits_inj'. intros n Hn.
  destruct (Z.lt_ge_cases n 8).
  - rewrite Z.mod_pow2_bits_low by lia. rewrite !Z.lor_spec.
    destruct (Z.lt_ge_cases n 7).
    + rewrite Z.mod_pow2_bits_low by lia. reflexivity.
    + replace n with 7 by lia. rewrite Z.pow2_bits_true by lia.
      rewrite !orb_true_r. reflexivity.
  - rewrite Z.mod_pow2_bits_high by lia. rewrite Z.lor_spec.
    rewrite Z.mod_pow2_bits_high by lia.
    rewrite Z.pow2_bits_false by lia. reflexivity.
Qed.

Lemma band_0x7f b : - 2 ^ 31 <= b < 2 ^ 31 -> band b 0x7f = b mod 128.
Proof.
  intros H. unfold band. rewrite !ToInt32_small by lia.
  change 0x7f with (Z.ones 7). rewrite Z.land_ones by lia. reflexivity.
Qed.

Lemma shl_small x k :
  0 <= k < 32 -> 0 <= x -> x * 2 ^ k < 2 ^ 31 -> shl x k = x * 2 ^ k.
Proof.
  intros Hk Hx H. unfold shl, shiftCount, ToUint32.
  assert (1 <= 2 ^ k) by (apply (Z.pow_le_mono_r 2 0 k); lia).
  rewrite (Z.mod_small k) by lia. rewrite (Z.mod_small k) by lia.
  rewrite (ToInt32_small x) by nia.
  rewrite Z.shiftl_mul_pow2 by lia. apply ToInt32_small. nia.
Qed.

Lemma bor_disjoint a y k :
  0 <= k -> 0 <= a < 2 ^ k -> 0 <= y -> a + y * 2 ^ k < 2 ^ 31 ->
  bor a (y * 2 ^ k) = a + y * 2 ^ k.
Proof.
  intros Hk Ha Hy H. unfold bor.
  assert (0 <= y * 2 ^ k) by nia.
  rewrite !ToInt32_small by lia. apply lor_disjoint; assumption.
Qed.

End Int32.

(** ** VarInt: size, encode and decode on the octets of [varint] *)

Section VarIntCodec.

Import JS VarIntLoops.

(** Whenever the size loop returns, the encode loop stores that many
    octets: both loops test and shift the same values. *)
Lemma size_encode_agree fuel v s r :
  size_loop fuel v s = Ok r ->
  r = s + Z.of_nat (length (varintBytes fuel v)) /\
  writes (encode_loop fuel v) (varintBytes fuel v).
Proof.
  revert v s r. induction fuel as [|fuel IH]; intros v s r; simpl.
  - discriminate.
  - destruct (0x80 <=? v).
    + intros H. apply IH in H as [-> W]. split; [simpl; lia|].
      apply (writes_bind _ _ [_] _ (UInt8_writes _) W).
    + intros [= <-]. split; [simpl; lia|]. apply UInt8_writes.
Qed.

Lemma size_loop_small n v s :
  v < 2 ^ 31 -> v < 128 ^ (Z.of_nat n + 1) ->
  exists r, size_loop (S n) v s = Ok r.
Proof.
  revert v s. induction n as [|n IH]; intros v s H31 H; simpl.
  - destruct (Z.leb_spec 0x80 v); [lia|]. eauto.
  - destruct (Z.leb_spec 0x80 v); [|eauto].
    apply IH; rewrite sar7_small by lia.
    + apply Z.div_lt_upper_bound; lia.
    + apply Z.div_lt_upper_bound; [lia|].
      replace (Z.of_nat (S n) + 1) with (1 + (Z.of_nat n + 1)) in H by lia.
      rewrite Z.pow_add_r in H by lia. lia.
Qed.

(** The size loop never uses up its budget, whatever number it is given. *)
Lemma size_loop_total v s : exists r, size_loop budget v s = Ok r.
Proof.
  unfold budget. cbn [size_loop].
  destruct (Z.leb_spec 0x80 v); [|eauto].
  pose proof (sar7_range v). apply (size_loop_small 4); simpl; lia.
Qed.

Lemma VarInt_size v : sizeOf VarInt (VNum v) = Ok (Z.of_nat (length (varint v))).
Proof.
  unfold sizeOf, VarInt, varint. cbn [size ToInteger rbind].
  destruct (size_loop_total v 0) as [r H]. rewrite H.
  apply size_encode_agree in H as [-> _]. reflexivity.
Qed.

Lemma VarInt_writes v : writes (encode VarInt (VNum v)) (varint v).
Proof.
  destruct (size_loop_total v 0) as [r H].
  apply size_encode_agree in H as [_ W].
  intros buf off R. apply W, R.
Qed.

(** An attempt to encode fails only by running off the buffer. *)
Lemma encode_loop_throws fuel v s r h e h' :
  size_loop fuel v s = Ok r ->
  encode_loop fuel v h = Throw e h' -> e = RangeError.
Proof.
  assert (U : forall z h e h', encode UInt8 (VNum z) h = Throw e h' -> e = RangeError).
  { intros z [buf off] e0 h0. unfold encode, UInt8, bind, one, DataView.setUint8,
      DataView.setIntN, bind, lift, ToInteger, ret, DataView.set.
    cbn [tracker buffer]. destruct (in_bounds _ _ _); congruence. }
  revert v s r h. induction fuel as [|fuel IH]; intros v s r h;
    cbn [size_loop encode_loop].
  - discriminate.
  - destruct (0x80 <=? v).
    + intros Hs. unfold bind at 1.
      destruct (encode UInt8 (VNum (bor v 0x80)) h) as [[] h1|e1 h1] eqn:E1.
      * apply (IH _ _ _ _ Hs).
      * intros [= <- <-]. exact (U _ _ _ _ E1).
    + intros _. apply U.
Qed.

Lemma VarInt_encode_throws v h e h' :
  encode VarInt (VNum v) h = Throw e h' -> e = RangeError.
Proof.
  destruct (size_loop_total v 0) as [r Hs].
  exact (encode_loop_throws _ _ _ _ _ _ _ Hs).
Qed.

Lemma decode_loop_reads fuel v s r (count : nat) i value :
  size_loop fuel v s = Ok r ->
  0 <= v -> 0 <= i <= 4 -> Z.of_nat count = 10 - i ->
  0 <= value < 2 ^ (7 * i) -> value + v * 2 ^ (7 * i) < 2 ^ 31 ->
  reads (decode_loop count i value (7 * i)) (varintBytes fuel v)
        (value + v * 2 ^ (7 * i)).
Proof.
  revert v s r count i value.
  induction fuel as [|fuel IH]; intros v s r count i value; simpl.
  { discriminate. }
  intros Hs Hv Hi Hc Hval Hsum.
  destruct count as [|count]; [lia|]. cbn [decode_loop].
  assert (P : 0 < 2 ^ (7 * i)) by (apply Z.pow_pos_nonneg; lia).
  assert (V31 : v < 2 ^ 31) by nia.
  destruct (Z.leb_spec 0x80 v) as [Hge|Hlt].
  - set (b0 := bor v 0x80 mod 256).
    assert (Eb : b0 = v mod 128 + 128) by apply bor_0x80_low.
    pose proof (Z.mod_pos_bound v 128 ltac:(lia)) as Hm.
    pose proof (Z.div_mod v 128 ltac:(lia)) as Hd.
    assert (I3 : i <= 3).
    { destruct (Z.le_gt_cases i 3); [assumption|].
      replace i with 4 in * by lia. simpl in *. lia. }
    apply (reads_bind _ _ [b0] _ _ _ (UInt8_reads b0)).
    intros buf off H. unfold bind at 1. unfold lift, ToInteger, ret.
    destruct (Z.ltb_spec b0 0x80); [lia|].
    rewrite band_0x7f by lia.
    replace (b0 mod 128) with (v mod 128)
      by (rewrite Eb, <- Z.add_mod_idemp_r, Z.mod_same, Z.add_0_r, Z.mod_mod; lia).
    assert (Hlow : v mod 128 * 2 ^ (7 * i) <= v * 2 ^ (7 * i)) by nia.
    rewrite shl_small by lia.
    rewrite bor_disjoint by lia.
    replace (7 * i + 7) with (7 * (i + 1)) by lia.
    assert (E7 : 2 ^ (7 * (i + 1)) = 128 * 2 ^ (7 * i)).
    { replace (7 * (i + 1)) with (7 + 7 * i) by lia.
      rewrite Z.pow_add_r by lia. reflexivity. }
    replace (value + v * 2 ^ (7 * i))
      with (value + v mod 128 * 2 ^ (7 * i) + v / 128 * 2 ^ (7 * (i + 1)))
      by (rewrite E7; nia).
    rewrite sar7_small in * by lia.
    apply (IH _ _ _ _ _ _ Hs); try lia.
    + rewrite E7. nia.
    + exact H.
  - intros buf off H. rewrite Z.mod_small in H |- * by lia.
    unfold bind at 1. rewrite (UInt8_reads v _ _ H).
    unfold bind, lift, ToInteger, ret.
    destruct (Z.ltb_spec v 0x80); [|lia].
    destruct (Z.eqb_spec i 9); [lia|]. simpl andb. cbv iota.
    rewrite shl_small by lia. rewrite bor_disjoint by lia. reflexivity.
Qed.

(** Decoding reads back what encoding stored, below 2^31. *)
Lemma VarInt_reads v :
  0 <= v < 2 ^ 31 -> reads (decode VarInt) (varint v) (VNum v).
Proof.
  intros Hv. destruct (size_loop_total v 0) as [r Hs].
  assert (R : reads (decode_loop 10 0 0 0) (varint v) v).
  { pose proof (decode_loop_reads budget v 0 r 10 0 0 Hs) as R.
    change (7 * 0) with 0 in R. change (2 ^ 0) with 1 in R.
    rewrite Z.mul_1_r, Z.add_0_l in R. apply R; lia. }
  intros buf off H. unfold decode, VarInt, bind, ret.
  rewrite (R _ _ H). reflexivity.
Qed.

End VarIntCodec.

(** ** VarInt: literal vectors and the round trip *)

(** C8: [VarInt.encode] stores exactly [0x00] for 0, [0x7F] for 127,
    [0x80 0x01] for 128, [0xAC 0x02] for 300 and [0x80 0x80 0x01] for 16384,
    each into a fresh buffer of the size [VarInt.size] declares. *)
Theorem VarInt_literal_vectors :
  (sizeOf VarInt (VNum 0) = Ok 1 /\
   run (encode VarInt (VNum 0)) (zeros 1) 0 = Return tt (Heap [0x00] 1)) /\
  (sizeOf VarInt (VNum 127) = Ok 1 /\
   run (encode VarInt (VNum 127)) (zeros 1) 0 = Return tt (Heap [0x7F] 1)) /\
  (sizeOf VarInt (VNum 128) = Ok 2 /\
   run (encode VarInt (VNum 128)) (zeros 2) 0 = Return tt (Heap [0x80; 0x01] 2)) /\
  (sizeOf VarInt (VNum 300) = Ok 2 /\
   run (encode VarInt (VNum 300)) (zeros 2) 0 = Return tt (Heap [0xAC; 0x02] 2)) /\
  (sizeOf VarInt (VNum 16384) = Ok 3 /\
   run (encode VarInt (VNum 16384)) (zeros 3) 0
   = Return tt (Heap [0x80; 0x80; 0x01] 3)).
Proof. repeat split; reflexivity. Qed.



(** The bound is sharp: 2^31 is stored as [0x80 0x00] and read back as 0. *)
Example VarInt_roundtrip_at_2_31 :
  roundtrip VarInt (VNum (2 ^ 31)) (zeros 2) 0
  = Return (VNum 0) (Heap [0x80; 0x00] 2).
Proof. reflexivity. Qed.

(** ** Packet framing *)

(** C3: the definition with identifier 2, a string [name] and an 8-bit
    unsigned [user] in the order [name, user] turns [{name: "ab", user: 5}]
    into exactly [02 02 61 62 05]; the receiving side, and the definition's
    own [decode] after the identifier, turn these octets back into
    [{name: "ab", user: 5}]. *)
Theorem TestPacket_framing :
  (forall buf,
     run (PacketDefinition.create TestPacket TestData) buf 0
     = Return [0x02; 0x02; 0x61; 0x62; 0x05]
              (Heap [0x02; 0x02; 0x61; 0x62; 0x05] 0)) /\
  run (BinarySocket.onmessage {[ 2 := TestPacket ]})
      [0x02; 0x02; 0x61; 0x62; 0x05] 0
  = Return (Some (2, TestData)) (Heap [0x02; 0x02; 0x61; 0x62; 0x05] 0) /\
  run (id <- decode VarInt ;;
       out <- StructDefinition.decode (PacketDefinition.super TestPacket) ;;
       ret (id, out))
      [0x02; 0x02; 0x61; 0x62; 0x05] 0
  = Return (VNum 2, TestData) (Heap [0x02; 0x02; 0x61; 0x62; 0x05] 5).
Proof. repeat split; reflexivity. Qed.

(** ** Float32 *)

(** [Float32.encode] stores the eight octets of the binary64 pattern and
    moves the tracker by four; it throws unless eight octets are available. *)
Lemma Float32_encode_cases v f buf off :
  ToNumber v = Ok f ->
  encode Float32 v (Heap buf off)
  = if in_bounds off 8 buf
    then Return tt (Heap (write_bytes off (be_bytes 8 (bits_of_float 53 1024 11 f)) buf)
                         (off + 4))
    else Throw RangeError (Heap buf (off + 4)).
Proof.
  intros E. unfold encode, Float32, bind, many, DataView.setFloat64, bind.
  rewrite E. unfold lift, ret, DataView.set. cbn [tracker buffer].
  rewrite length_be_bytes. destruct (in_bounds off 8 buf); reflexivity.
Qed.

(** C1, at [Float32] and the number 1: [encode] calls [setFloat64], so in a
    buffer of the declared four octets it throws, and where eight octets are
    available [decode] reads the upper half of the binary64 pattern of 1 as
    a binary32 datum, 1.875. *)
Theorem Float32_roundtrip_fails :
  sizeOf Float32 (VFloat one_f) = Ok 4 /\
  roundtrip Float32 (VFloat one_f) (zeros 4) 0
  = Throw RangeError (Heap (zeros 4) 4) /\
  roundtrip Float32 (VFloat one_f) (zeros 8) 0
  = Return (VFloat one_875_f) (Heap [0x3F; 0xF0; 0; 0; 0; 0; 0; 0] 4) /\
  numEq (VFloat one_875_f) (VFloat one_f) = false.
Proof. repeat split; reflexivity. Qed.

(** C2, at [Float32] and the number 1: the declared size is 4 and the
    tracker advances by 4, but eight octets are stored (none when fewer than
    eight are available); and at [VarInt] and 4294967295: the two octets of
    its encoding both carry the continuation bit, so decoding a buffer that
    holds only them reads past its end. *)
Theorem size_encode_decode_disagree :
  (sizeOf Float32 (VFloat one_f) = Ok 4 /\
   run (encode Float32 (VFloat one_f)) (replicate 4 0xFF) 0
   = Throw RangeError (Heap (replicate 4 0xFF) 4) /\
   run (encode Float32 (VFloat one_f)) (replicate 8 0xFF) 0
   = Return tt (Heap [0x3F; 0xF0; 0; 0; 0; 0; 0; 0] 4)) /\
  (sizeOf VarInt (VNum 4294967295) = Ok 2 /\
   run (encode VarInt (VNum 4294967295)) (zeros 2) 0
   = Return tt (Heap [0xFF; 0xFF] 2) /\
   run (decode VarInt) [0xFF; 0xFF] 0 = Throw RangeError (Heap [0xFF; 0xFF] 3)).
Proof. repeat split; reflexivity. Qed.

(** C6, at a packet whose last field is a [Float32]: the buffer has the
    five octets the sizes add up to, [setFloat64] needs eight from offset 1,
    and [create] throws with the tracker left at 5. *)
Theorem create_Float32_throws :
  rbind (VarIntSize (VNum (PacketDefinition.id FloatPacket))) (fun a =>
  rbind (StructDefinition.computeSize (PacketDefinition.super FloatPacket)
           (VObj [("x", VFloat one_f)])) (fun b => Ok (a + b))) = Ok 5 /\
  forall buf,
    run (PacketDefinition.create FloatPacket (VObj [("x", VFloat one_f)])) buf 0
    = Throw RangeError (Heap [0x01; 0; 0; 0; 0] 5).
Proof. split; reflexivity. Qed.

(** C4, at 2^31: [>>=] first reduces the value to a signed 32-bit integer,
    so the loops stop after one shift, where the rule of the specification
    asks for four. *)
Theorem VarInt_departs_from_rule_at_2_31 :
  sizeOf VarInt (VNum (2 ^ 31)) = Ok 2 /\
  Spec.size (2 ^ 31) = 5 /\
  run (encode VarInt (VNum (2 ^ 31))) (zeros 2) 0
  = Return tt (Heap [0x80; 0x00] 2) /\
  Spec.bytes (2 ^ 31) = [0x80; 0x80; 0x80; 0x80; 0x08].
Proof. repeat split; reflexivity. Qed.

(** ** VarInt.decode: the cap at ten octets *)

Section VarIntCap.

Import JS VarIntLoops.





Lemma UInt8_decode_cases buf off :
  decode UInt8 (Heap buf off)
  = if in_bounds off 1 buf
    then Return (VNum (be_value (read_bytes off 1 buf))) (Heap buf (off + 1))
    else Throw RangeError (Heap buf (off + 1)).
Proof.
  unfold decode, UInt8, bind, one, DataView.getUint8, DataView.getUintN, bind,
    DataView.get, ret. cbn [tracker buffer].
  destruct (in_bounds off 1 buf); reflexivity.
Qed.

(** Whatever the buffer holds, the loop leaves it alone and moves the
    tracker over at most [count] octets; it throws only when the octet it
    asks for lies beyond the end of the buffer. *)
Lemma decode_loop_bounded count : forall i value bitOffset buf off,
  0 <= off ->
  match decode_loop count i value bitOffset (Heap buf off) with
  | Return _ h =>
      buffer h = buf /\ off <= tracker h <= off + Z.of_nat count /\
      ((0 < count)%nat -> off < tracker h)
  | Throw e h =>
      e = RangeError /\ buffer h = buf /\
      off < tracker h <= off + Z.of_nat count /\
      Z.of_nat (length buf) < tracker h
  end.
Proof.
  induction count as [|count IH]; intros i value bitOffset buf off H0.
  - simpl. repeat split; lia.
  - cbn [decode_loop]. unfold bind at 1. rewrite UInt8_decode_cases.
    unfold in_bounds.
    destruct (Z.leb_spec 0 off); [|lia].
    destruct (Z.leb_spec (off + Z.of_nat 1) (Z.of_nat (length buf))); cbn [andb].
    + unfold bind, lift, ToInteger, ret.
      destruct (_ <? 0x80).
      * destruct ((i =? 9) && _); cbn [buffer tracker]; repeat split; lia.
      * specialize (IH (i + 1)
                      (bor value (shl (band (be_value (read_bytes off 1 buf)) 0x7f)
                                     bitOffset))
                      (bitOffset + 7) buf (off + 1) ltac:(lia)).
        destruct (decode_loop count _ _ _ _) as [v h|e h].
        -- destruct IH as (B & T & _). repeat split; try assumption; lia.
        -- destruct IH as (E & B & T & L). repeat split; try assumption; lia.
    + cbn [buffer tracker]. repeat split; lia.
Qed.

End VarIntCap.




(** ** ByteArray and Str *)

Section Strings.

Lemma concat_octetOf s :
  concat (map octetOf (map VNum s)) = map (fun c => c mod 256) s.
Proof. induction s as [|c s IH]; simpl; congruence. Qed.


(** The shared body of [ByteArray.encode] and [Str.encode]. *)
Lemma lengthPrefixed_writes v s :
  elements v = Ok (map VNum s) ->
  writes (len <- lift (lengthOf v) ;;
          encode VarInt (VNum len) ;;
          elms <- lift (elements v) ;;
          forOf elms (fun elm => encode UInt8 elm))
         (varint (Z.of_nat (length s)) ++ map (fun c => c mod 256) s).
Proof.
  intros E buf off R. unfold lengthOf. rewrite E. cbn [rbind lift].
  unfold bind at 1. unfold ret at 1. rewrite length_map.
  assert (W : writes (forOf (map VNum s) (fun elm => encode UInt8 elm))
                     (map (fun c => c mod 256) s)).
  { rewrite <- concat_octetOf. apply writes_forOf.
    intros x Hx. apply list_elem_of_fmap in Hx as (z & -> & _).
    apply UInt8_writes. }
  apply (writes_bind _ _ _ _ (VarInt_writes _)); [|exact R].
  intros buf' off' R'. unfold bind, ret. apply W, R'.
Qed.




End Strings.



(** Strings of length 0, 1 and 1000, each in a buffer of its size. *)
Example Str_roundtrip_lengths :
  roundtrip Str (VStr []) (zeros 1) 0 = Return (VStr []) (Heap [0] 1) /\
  roundtrip Str (VStr [0xE9]) (zeros 2) 0
  = Return (VStr [0xE9]) (Heap [1; 0xE9] 2) /\
  roundtrip Str (VStr (replicate 1000 0x61)) (zeros 1002) 0
  = Return (VStr (replicate 1000 0x61))
           (Heap ([0xE8; 0x07] ++ replicate 1000 0x61) 1002).
Proof. repeat split; vm_compute; reflexivity. Qed.

(** A code unit above 255 comes back as its low octet. *)
Example Str_truncates_code_units :
  roundtrip Str (VStr [0x263A]) (zeros 2) 0
  = Return (VStr [0x3A]) (Heap [1; 0x3A] 2).
Proof. reflexivity. Qed.

(** ** StructDefinition: the keys sequence is the wire order *)

Section Structs.

Lemma fillFields_spec struct rest : forall done,
  StructDefinition.fillFields struct rest (length done)
    (done ++ replicate (length rest) None)
  = done ++ map (fun key => Some (key, assoc key struct)) rest.
Proof.
  induction rest as [|key rest IH]; intros done; simpl.
  - reflexivity.
  - rewrite (insert_app_r_alt done) by apply Nat.le_refl.
    rewrite Nat.sub_diag. simpl.
    specialize (IH (done ++ [Some (key, assoc key struct)])).
    rewrite length_app, Nat.add_1_r, <- !app_assoc in IH. exact IH.
Qed.

(** The constructor pairs each key, in the order of [keys], with the data
    type the layout has for it. *)
Lemma fields_new struct keys :
  StructDefinition.fields (StructDefinition.new struct keys) = map (fun key => Some (key, assoc key struct)) keys.
Proof. exact (fillFields_spec struct keys []). Qed.

Lemma forOf_map {A B} (f : A -> B) (body : B -> M unit) xs :
  forOf (map f xs) body = forOf xs (fun x => body (f x)).
Proof. induction xs as [|x xs IH]; simpl; [reflexivity|]. rewrite IH. reflexivity. Qed.

Lemma forOf_ext {A} (body1 body2 : A -> M unit) xs h :
  (forall x h', x ∈ xs -> body1 x h' = body2 x h') ->
  forOf xs body1 h = forOf xs body2 h.
Proof.
  revert h. induction xs as [|x xs IH]; intros h E; simpl; [reflexivity|].
  unfold bind. rewrite E by left.
  destruct (body2 x h); [|reflexivity]. apply IH.
  intros y h' Hy. apply E. right. exact Hy.
Qed.

(** [encode] runs the StructDefinition.fields' encoders one after the other on the shared
    view and tracker, in the order of [keys]. *)
Lemma encode_sequence struct keys (typeOf : string -> DataType) v h :
  (forall k, k ∈ keys -> assoc k struct = Some (typeOf k)) ->
  StructDefinition.encode (StructDefinition.new struct keys) v h
  = forOf keys (fun k => encode (typeOf k) (getProp v k)) h.
Proof.
  intros T. unfold StructDefinition.encode. rewrite fields_new, forOf_map.
  apply forOf_ext. intros k h' Hk. unfold StructDefinition.field. rewrite (T k Hk).
  reflexivity.
Qed.

Lemma computeSizeFrom_sum struct keys (typeOf : string -> DataType) v sz :
  (forall k, k ∈ keys -> assoc k struct = Some (typeOf k)) ->
  (forall k, k ∈ keys -> sizeOf (typeOf k) (getProp v k) = Ok (sz k)) ->
  forall acc,
    StructDefinition.computeSizeFrom (map (fun key => Some (key, assoc key struct)) keys) v acc
    = Ok (acc + sumZ (map sz keys)).
Proof.
  induction keys as [|k keys IH]; intros T S acc; simpl.
  - rewrite Z.add_0_r. reflexivity.
  - rewrite (T k) by left. cbn [rbind fst snd]. rewrite (S k) by left.
    cbn [rbind]. rewrite IH.
    + f_equal. unfold sumZ. simpl. lia.
    + intros k' Hk'. apply T. right. exact Hk'.
    + intros k' Hk'. apply S. right. exact Hk'.
Qed.

Lemma assign_fresh {A} key (x : A) o :
  key ∉ o.*1 -> assign key x o = o ++ [(key, x)].
Proof.
  induction o as [|[k y] o IH]; intros N; simpl; [reflexivity|].
  rewrite fmap_cons in N. apply not_elem_of_cons in N as [N1 N2].
  destruct (decide (k = key)) as [->|]; [contradiction|].
  rewrite IH by exact N2. reflexivity.
Qed.

Lemma decodeFrom_reads struct keys (typeOf : string -> DataType) bytes val :
  (forall k, k ∈ keys -> assoc k struct = Some (typeOf k)) ->
  (forall k, k ∈ keys -> reads (decode (typeOf k)) (bytes k) (val k)) ->
  forall out,
    NoDup (out.*1 ++ keys) ->
    reads (StructDefinition.decodeFrom (map (fun key => Some (key, assoc key struct)) keys) out)
          (concat (map bytes keys))
          (VObj (out ++ map (fun k => (k, val k)) keys)).
Proof.
  induction keys as [|k keys IH]; intros T R out N; simpl.
  - rewrite app_nil_r. apply reads_ret.
  - rewrite (T k) by left. cbn [lift].
    intros buf off H. unfold bind at 1. unfold ret at 1. revert buf off H.
    apply (reads_bind _ _ _ _ _ _ (R k ltac:(left))). cbn [fst snd].
    pose proof N as N0. apply NoDup_app in N as (N1 & N2 & N3).
    apply NoDup_cons in N3 as [N3 N4].
    rewrite assign_fresh by (intros Hin; apply (N2 _ Hin); left).
    replace (out ++ (k, val k) :: map (fun k0 => (k0, val k0)) keys)
      with ((out ++ [(k, val k)]) ++ map (fun k0 => (k0, val k0)) keys)
      by (rewrite <- app_assoc; reflexivity).
    apply IH.
    + intros k' Hk'. apply T. right. exact Hk'.
    + intros k' Hk'. apply R. right. exact Hk'.
    + rewrite fmap_app, <- app_assoc. exact N0.
Qed.






Lemma sumZ_lengths {A} (enc : A -> list Z) xs :
  sumZ (map (fun x => Z.of_nat (length (enc x))) xs)
  = Z.of_nat (length (concat (map enc xs))).
Proof.
  induction xs as [|x xs IH]; simpl; [reflexivity|].
  rewrite length_app. unfold sumZ in *. simpl. lia.
Qed.

End Structs.



(** The same packet from the two orders of the layout. *)
Example layout_order_irrelevant :
  forall v buf,
    run (PacketDefinition.create
           (PacketDefinition.new 2 [("user", UInt8); ("name", Str)] ["name"; "user"]) v)
        buf 0
    = run (PacketDefinition.create TestPacket v) buf 0.
Proof. reflexivity. Qed.

(** ** PacketDefinition.create *)

Section Create.

Lemma write_bytes_whole bs : write_bytes 0 bs (replicate (length bs) 0) = bs.
Proof.
  unfold write_bytes. simpl. rewrite drop_ge by (rewrite length_replicate; lia).
  apply app_nil_r.
Qed.

(** Where every field's encoder stores exactly as many octets as the field's
    size rule declares, [create] called with the tracker at 0 returns the
    buffer holding the varint of the identifier followed by the fields'
    octets, and nothing else, and leaves the tracker at 0. *)
Lemma create_exact id struct keys (typeOf : string -> DataType) data enc :
  (forall k, k ∈ keys -> assoc k struct = Some (typeOf k)) ->
  (forall k, k ∈ keys -> writes (encode (typeOf k) (getProp data k)) (enc k)) ->
  (forall k, k ∈ keys ->
     sizeOf (typeOf k) (getProp data k) = Ok (Z.of_nat (length (enc k)))) ->
  VarIntSize (VNum id) = Ok (Z.of_nat (length (varint id))) /\
  StructDefinition.computeSize (StructDefinition.new struct keys) data
  = Ok (Z.of_nat (length (concat (map enc keys)))) /\
  forall buf,
    run (PacketDefinition.create (PacketDefinition.new id struct keys) data) buf 0
    = Return (varint id ++ concat (map enc keys))
             (Heap (varint id ++ concat (map enc keys)) 0).
Proof.
  intros T W S.
  assert (Ev : VarIntSize (VNum id) = Ok (Z.of_nat (length (varint id))))
    by apply VarInt_size.
  assert (Es : StructDefinition.computeSize (StructDefinition.new struct keys) data
               = Ok (Z.of_nat (length (concat (map enc keys))))).
  { unfold StructDefinition.computeSize. rewrite fields_new.
    rewrite (computeSizeFrom_sum struct keys typeOf data
               (fun k => Z.of_nat (length (enc k))) T S 0).
    rewrite sumZ_lengths. reflexivity. }
  split; [exact Ev|]. split; [exact Es|]. intros buf.
  unfold run, PacketDefinition.create, PacketDefinition.new.
  cbn [PacketDefinition.id PacketDefinition.super].
  rewrite Ev, Es. cbn [rbind lift]. unfold bind at 1. unfold ret at 1.
  unfold bind at 1. unfold PacketDefinition.newArrayBuffer at 1.
  cbn [tracker buffer].
  set (bytes := varint id ++ concat (map enc keys)).
  assert (L : Z.of_nat (length (varint id))
              + Z.of_nat (length (concat (map enc keys)))
              = Z.of_nat (length bytes))
    by (unfold bytes; rewrite length_app; lia).
  rewrite L. destruct (Z.leb_spec 0 (Z.of_nat (length bytes))); [|lia].
  rewrite Nat2Z.id.
  assert (Wb : writes (encode VarInt (VNum id) ;;
                       StructDefinition.encode (StructDefinition.new struct keys) data)
                      bytes).
  { apply writes_bind; [apply VarInt_writes|].
    intros b o R. rewrite (encode_sequence _ _ _ _ _ T).
    exact (writes_forOf _ enc keys W b o R). }
  assert (R : room (replicate (length bytes) 0) 0 (length bytes))
    by (split; [lia|rewrite length_replicate; lia]).
  specialize (Wb _ _ R). rewrite write_bytes_whole in Wb.
  unfold bind in Wb |- *.
  destruct (encode VarInt (VNum id) (Heap (replicate (length bytes) 0) 0))
    as [[] h1|e h1]; [|discriminate].
  rewrite Wb. reflexivity.
Qed.

End Create.

(** ** VarInt against the rule of the specification *)

Section VarIntRule.

Import JS.

Lemma pow128_succ n : 128 ^ (Z.of_nat (S n) + 1) = 128 * 128 ^ (Z.of_nat n + 1).
Proof.
  replace (Z.of_nat (S n) + 1) with (1 + (Z.of_nat n + 1)) by lia.
  rewrite Z.pow_add_r by lia. reflexivity.
Qed.

Lemma spec_head v : 0 <= v -> Z.lor (Z.land v 0x7f) 0x80 = v mod 128 + 128.
Proof.
  intros Hv. change 0x7f with (Z.ones 7). rewrite Z.land_ones by lia.
  change (2 ^ 7) with 128.
  pose proof (Z.mod_pos_bound v 128 ltac:(lia)).
  exact (lor_disjoint (v mod 128) 1 7 ltac:(lia) ltac:(simpl; lia)).
Qed.

Lemma varintBytes_S fuel v :
  varintBytes (S fuel) v
  = if 0x80 <=? v
    then bor v 0x80 mod 256 :: varintBytes fuel (sar v 7)
    else [v mod 256].
Proof. reflexivity. Qed.

Lemma emit_S fuel v :
  Spec.emit (S fuel) v
  = if 0x80 <=? v
    then Z.lor (Z.land v 0x7f) 0x80 :: Spec.emit fuel (Z.shiftr v 7)
    else [v].
Proof. reflexivity. Qed.

Lemma shiftsBelow_S fuel v :
  Spec.shiftsBelow (S fuel) v
  = if 0x80 <=? v then 1 + Spec.shiftsBelow fuel (Z.shiftr v 7) else 0.
Proof. reflexivity. Qed.

(** Below 2^31 the encode loop emits what the rule emits. *)
Lemma varintBytes_emit n : forall m v,
  0 <= v < 2 ^ 31 ->
  v < 128 ^ (Z.of_nat n + 1) -> v < 128 ^ (Z.of_nat m + 1) ->
  varintBytes (S n) v = Spec.emit (S m) v.
Proof.
  induction n as [|n IH]; intros m v Hv Hn Hm;
    rewrite varintBytes_S, emit_S.
  - simpl in Hn. destruct (Z.leb_spec 0x80 v); [lia|].
    rewrite Z.mod_small by lia. reflexivity.
  - destruct (Z.leb_spec 0x80 v) as [Hge|Hlt].
    + rewrite bor_0x80_low, spec_head by lia.
      rewrite sar7_small by lia. rewrite Z.shiftr_div_pow2 by lia.
      change (2 ^ 7) with 128.
      destruct m as [|m]; [simpl in Hm; lia|].
      rewrite pow128_succ in Hn, Hm.
      rewrite (IH m (v / 128)); [reflexivity| | |].
      * split; [apply Z.div_pos; lia|apply Z.div_lt_upper_bound; lia].
      * apply Z.div_lt_upper_bound; lia.
      * apply Z.div_lt_upper_bound; lia.
    + rewrite Z.mod_small by lia. reflexivity.
Qed.

Lemma shiftsBelow_length m : forall v,
  v < 128 ^ (Z.of_nat m + 1) ->
  Spec.shiftsBelow (S m) v + 1 = Z.of_nat (length (Spec.emit (S m) v)).
Proof.
  induction m as [|m IH]; intros v Hm; rewrite shiftsBelow_S, emit_S.
  - simpl in Hm. destruct (Z.leb_spec 0x80 v); [lia|]. reflexivity.
  - destruct (Z.leb_spec 0x80 v) as [Hge|Hlt]; [|reflexivity].
    rewrite pow128_succ in Hm.
    rewrite length_cons, Nat2Z.inj_succ, <- IH; [lia|].
    rewrite Z.shiftr_div_pow2 by lia. apply Z.div_lt_upper_bound; simpl; lia.
Qed.

Lemma steps_enough v :
  0 <= v -> v < 128 ^ (Z.of_nat (Z.to_nat (Z.log2 v)) + 1).
Proof.
  intros Hv. pose proof (Z.log2_nonneg v) as Hl. rewrite Z2Nat.id by exact Hl.
  destruct (Z.eq_dec v 0) as [->|Hne]; [reflexivity|].
  destruct (Z.log2_spec v ltac:(lia)) as [_ Hlt].
  apply Z.lt_le_trans with (2 ^ Z.succ (Z.log2 v)); [exact Hlt|].
  unfold Z.succ. apply Z.pow_le_mono_l. lia.
Qed.

(** Below 2^31, [VarInt.size] and [VarInt.encode] follow the rule. *)
Lemma VarInt_follows_rule_below_2_31 v :
  0 <= v < 2 ^ 31 ->
  sizeOf VarInt (VNum v) = Ok (Spec.size v) /\
  writes (encode VarInt (VNum v)) (Spec.bytes v) /\
  Z.of_nat (length (Spec.bytes v)) = Spec.size v.
Proof.
  intros Hv.
  assert (E : varint v = Spec.bytes v).
  { unfold varint, Spec.bytes, Spec.steps, VarIntLoops.budget.
    apply (varintBytes_emit 5); [exact Hv|simpl; lia|apply steps_enough; lia]. }
  assert (L : Z.of_nat (length (Spec.bytes v)) = Spec.size v).
  { unfold Spec.bytes, Spec.size, Spec.steps. symmetry.
    apply shiftsBelow_length, steps_enough. lia. }
  split; [|split; [|exact L]].
  - rewrite VarInt_size, E, L. reflexivity.
  - rewrite <- E. apply VarInt_writes.
Qed.

(** The count the rule speaks of: [Spec.size v - 1] shifts by 7 bits bring
    [v] below 0x80, and no fewer do. *)
Lemma shiftsBelow_least m : forall v,
  0 <= v -> v < 128 ^ (Z.of_nat m + 1) ->
  Z.shiftr v (7 * Spec.shiftsBelow (S m) v) < 0x80 /\
  forall j, 0 <= j < Spec.shiftsBelow (S m) v -> 0x80 <= Z.shiftr v (7 * j).
Proof.
  induction m as [|m IH]; intros v Hv Hm; rewrite shiftsBelow_S.
  - simpl in Hm. destruct (Z.leb_spec 0x80 v); [lia|].
    split; [rewrite Z.mul_0_r, Z.shiftr_0_r; lia|intros j Hj; lia].
  - destruct (Z.leb_spec 0x80 v) as [Hge|Hlt].
    + rewrite pow128_succ in Hm.
      assert (Hq : 0 <= Z.shiftr v 7 < 128 ^ (Z.of_nat m + 1)).
      { rewrite Z.shiftr_div_pow2 by lia. change (2 ^ 7) with 128.
        split; [apply Z.div_pos; lia|apply Z.div_lt_upper_bound; lia]. }
      destruct (IH (Z.shiftr v 7) (proj1 Hq) (proj2 Hq)) as [I1 I2].
      assert (K : 0 <= Spec.shiftsBelow (S m) (Z.shiftr v 7)).
      { clear. generalize (Z.shiftr v 7). generalize (S m).
        induction n as [|n IHn]; intros w; simpl; [lia|].
        destruct (128 <=? w); [specialize (IHn (Z.shiftr w 7)); lia|lia]. }
      split.
      * rewrite Z.shiftr_shiftr in I1 by lia.
        replace (7 * (1 + Spec.shiftsBelow (S m) (Z.shiftr v 7)))
          with (7 + 7 * Spec.shiftsBelow (S m) (Z.shiftr v 7)) by lia.
        exact I1.
      * intros j Hj. destruct (Z.eq_dec j 0) as [->|Hj0];
          [rewrite Z.mul_0_r, Z.shiftr_0_r; lia|].
        specialize (I2 (j - 1) ltac:(lia)).
        rewrite Z.shiftr_shiftr in I2 by lia.
        replace (7 + 7 * (j - 1)) with (7 * j) in I2 by lia. exact I2.
    + split; [rewrite Z.mul_0_r, Z.shiftr_0_r; lia|intros j Hj; lia].
Qed.

End VarIntRule.

(** ** The fixed-width codecs other than Float32 *)

Section FixedWidth.

Lemma signed_mod w v :
  0 < w -> - 2 ^ (w - 1) <= v < 2 ^ (w - 1) -> signed w (v mod 2 ^ w) = v.
Proof.
  intros Hw Hv. unfold signed.
  assert (E : 2 ^ w = 2 * 2 ^ (w - 1)).
  { replace w with (1 + (w - 1)) at 1 by lia. rewrite Z.pow_add_r by lia.
    reflexivity. }
  destruct (Z.le_gt_cases 0 v).
  - rewrite Z.mod_small by lia. destruct (Z.ltb_spec v (2 ^ (w - 1))); lia.
  - rewrite <- (Z.mod_add v 1 (2 ^ w)) by lia. rewrite Z.mod_small by lia.
    destruct (Z.ltb_spec (v + 1 * 2 ^ w) (2 ^ (w - 1))); lia.
Qed.

Lemma signed_codec n v :
  (0 < n)%nat ->
  - 2 ^ (8 * Z.of_nat n - 1) <= v < 2 ^ (8 * Z.of_nat n - 1) ->
  writes (off <- many (Z.of_nat n) ;; DataView.setIntN n off (VNum v))
         (be_bytes n v) /\
  reads (off <- many (Z.of_nat n) ;; DataView.getIntN n off)
        (be_bytes n v) (VNum v).
Proof.
  intros Hn Hv. split; [apply setIntN_writes|].
  pose proof (getIntN_reads n (be_bytes n v) (length_be_bytes n v)) as R.
  rewrite be_value_be_bytes, signed_mod in R by lia. exact R.
Qed.

Lemma unsigned_codec n v :
  0 <= v < 2 ^ (8 * Z.of_nat n) ->
  writes (off <- many (Z.of_nat n) ;; DataView.setIntN n off (VNum v))
         (be_bytes n v) /\
  reads (off <- many (Z.of_nat n) ;; DataView.getUintN n off)
        (be_bytes n v) (VNum v).
Proof.
  intros Hv. split; [apply setIntN_writes|].
  pose proof (getUintN_reads n (be_bytes n v) (length_be_bytes n v)) as R.
  rewrite be_value_be_bytes, Z.mod_small in R by lia. exact R.
Qed.

Lemma digits2_pos_bounds m :
  2 ^ (Zpos (digits2_pos m) - 1) <= Zpos m < 2 ^ Zpos (digits2_pos m).
Proof.
  induction m as [m IH|m IH|]; cbn [digits2_pos].
  - rewrite Pos2Z.inj_succ. unfold Z.succ.
    replace (Z.pos (digits2_pos m) + 1 - 1) with (1 + (Z.pos (digits2_pos m) - 1)) by lia.
    rewrite (Z.add_comm (Z.pos (digits2_pos m)) 1).
    rewrite !Z.pow_add_r by lia. change (2 ^ 1) with 2. lia.
  - rewrite Pos2Z.inj_succ. unfold Z.succ.
    replace (Z.pos (digits2_pos m) + 1 - 1) with (1 + (Z.pos (digits2_pos m) - 1)) by lia.
    rewrite (Z.add_comm (Z.pos (digits2_pos m)) 1).
    rewrite !Z.pow_add_r by lia. change (2 ^ 1) with 2. lia.
  - simpl. lia.
Qed.

Lemma binary64_fields (sg : bool) E M :
  0 <= E < 2 ^ 11 -> 0 <= M < 2 ^ 52 ->
  let x := (if sg then 2 ^ 63 else 0) + E * 2 ^ 52 + M in
  0 <= x < 2 ^ 64 /\
  Z.testbit x 63 = sg /\ (x / 2 ^ 52) mod 2 ^ 11 = E /\ x mod 2 ^ 52 = M.
Proof.
  intros HE HM x.
  assert (Q : x / 2 ^ 52 = (if sg then 2 ^ 11 else 0) + E).
  { symmetry. apply (Z.div_unique x (2 ^ 52) _ M); [lia|].
    unfold x. destruct sg; lia. }
  assert (Q63 : x / 2 ^ 63 = if sg then 1 else 0).
  { symmetry. apply (Z.div_unique x (2 ^ 63) _ (E * 2 ^ 52 + M)); [lia|].
    unfold x. destruct sg; lia. }
  split; [unfold x; destruct sg; lia|]. split; [|split].
  - pose proof (Z.testbit_spec' x 63 ltac:(lia)) as T. rewrite Q63 in T.
    destruct (Z.testbit x 63), sg; simpl in T; try reflexivity; discriminate.
  - rewrite Q. symmetry.
    apply (Z.mod_unique _ (2 ^ 11) (if sg then 1 else 0)); [lia|].
    destruct sg; lia.
  - symmetry. apply (Z.mod_unique x (2 ^ 52) ((if sg then 2 ^ 11 else 0) + E)); [lia|].
    unfold x. destruct sg; lia.
Qed.

Lemma binary64_bits_roundtrip f :
  valid_binary 53 1024 f = true ->
  0 <= bits_of_float 53 1024 11 f < 2 ^ 64 /\
  float_of_bits 53 1024 11 (bits_of_float 53 1024 11 f) = f.
Proof.
  destruct f as [s|s| |s m e]; intros V.
  - destruct s; split; try (vm_compute; split; congruence); reflexivity.
  - destruct s; split; try (vm_compute; split; congruence); reflexivity.
  - split; try (vm_compute; split; congruence); reflexivity.
  - unfold valid_binary, bounded, canonical_mantissa, fexp, emin in V.
    apply andb_true_iff in V as [V1 V2].
    apply Z.eqb_eq in V1. apply Z.leb_le in V2.
    pose proof (digits2_pos_bounds m) as D.
    set (d := Zpos (digits2_pos m)) in *.
    unfold bits_of_float, float_of_bits, sign_bit, mw, emin.
    change (53 - 1) with 52. change (52 + 11) with 63.
    change (3 - 1024 - 53) with (-1074).
    change (3 - 1024 - 53) with (-1074) in V1.
    change (1024 - 53) with 971 in V2.
    destruct (Z.ltb_spec (Zpos m) (2 ^ 52)) as [Hsub|Hnorm].
    + assert (d <= 52).
      { destruct (Z.le_gt_cases d 52); [assumption|].
        assert (2 ^ 52 <= 2 ^ (d - 1)) by (apply Z.pow_le_mono_r; lia). lia. }
      assert (e = -1074) by lia. subst e.
      destruct (binary64_fields s 0 (Zpos m) ltac:(lia) ltac:(lia))
        as (R & T & E & M).
      rewrite Z.mul_0_l, Z.add_0_r in R, T, E, M.
      split; [exact R|]. rewrite T, E, M. reflexivity.
    + assert (d = 53).
      { destruct (Z.lt_trichotomy d 53) as [Hlt|[Heq|Hgt]]; [|exact Heq|].
        - assert (2 ^ d <= 2 ^ 52) by (apply Z.pow_le_mono_r; lia). lia.
        - lia. }
      assert (Hm : Zpos m < 2 ^ 53) by (replace 53 with d by lia; apply D).
      destruct (binary64_fields s (e - -1074 + 1) (Zpos m - 2 ^ 52)
                  ltac:(lia) ltac:(lia)) as (R & T & E & M).
      split; [exact R|]. rewrite T, E, M.
      destruct (Z.eqb_spec (e - -1074 + 1) 0); [lia|].
      destruct (Z.eqb_spec (e - -1074 + 1) (2 ^ 11 - 1)); [lia|].
      replace (Z.pos m - 2 ^ 52 + 2 ^ 52) with (Zpos m) by lia.
      f_equal. lia.
Qed.

(** Every primitive codec but [Float32] handles the values of its declared
    range exactly: integers in big-endian two's complement, booleans as 1
    and 0, binary64 data as their interchange pattern. *)
Lemma primitive_codecs_exact :
  (forall v, -128 <= v <= 127 -> exact_codec Int8 (VNum v) (be_bytes 1 v)) /\
  (forall v, -32768 <= v <= 32767 -> exact_codec Int16 (VNum v) (be_bytes 2 v)) /\
  (forall v, -2147483648 <= v <= 2147483647 ->
             exact_codec Int32 (VNum v) (be_bytes 4 v)) /\
  (forall v, 0 <= v <= 255 -> exact_codec UInt8 (VNum v) (be_bytes 1 v)) /\
  (forall v, 0 <= v <= 65535 -> exact_codec UInt16 (VNum v) (be_bytes 2 v)) /\
  (forall v, 0 <= v <= 4294967295 -> exact_codec UInt32 (VNum v) (be_bytes 4 v)) /\
  (forall b, exact_codec Bool (VBool b) [if b then 1 else 0]) /\
  (forall f, valid_binary 53 1024 f = true ->
             exact_codec Float64 (VFloat f)
               (be_bytes 8 (bits_of_float 53 1024 11 f))).
Proof.
  repeat split; try reflexivity.
  - exact (proj1 (signed_codec 1 v ltac:(lia) ltac:(simpl; lia))).
  - exact (proj2 (signed_codec 1 v ltac:(lia) ltac:(simpl; lia))).
  - exact (proj1 (signed_codec 2 v ltac:(lia) ltac:(simpl; lia))).
  - exact (proj2 (signed_codec 2 v ltac:(lia) ltac:(simpl; lia))).
  - exact (proj1 (signed_codec 4 v ltac:(lia) ltac:(simpl; lia))).
  - exact (proj2 (signed_codec 4 v ltac:(lia) ltac:(simpl; lia))).
  - exact (proj1 (unsigned_codec 1 v ltac:(simpl; lia))).
  - exact (proj2 (unsigned_codec 1 v ltac:(simpl; lia))).
  - exact (proj1 (unsigned_codec 2 v ltac:(simpl; lia))).
  - exact (proj2 (unsigned_codec 2 v ltac:(simpl; lia))).
  - exact (proj1 (unsigned_codec 4 v ltac:(simpl; lia))).
  - exact (proj2 (unsigned_codec 4 v ltac:(simpl; lia))).
  - destruct b; [exact (UInt8_writes 1)|exact (UInt8_writes 0)].
  - intros buf off H. unfold decode at 1, Bool. unfold bind at 1.
    rewrite (UInt8_reads _ _ _ H). destruct b; reflexivity.
  - intros buf off R. unfold encode, Float64, bind, many, DataView.setFloat64,
      bind, lift, ToNumber, ret. cbn [tracker buffer].
    rewrite DataView_set_writes by exact R. rewrite length_be_bytes. reflexivity.
  - destruct (binary64_bits_roundtrip f H) as [B E].
    intros buf off Hh. unfold decode, Float64, bind, many, DataView.getFloat64,
      bind, ret. cbn [tracker buffer].
    pose proof (DataView_get_reads off _ buf (off + 8) Hh) as G.
    rewrite length_be_bytes in G. rewrite G.
    rewrite be_value_be_bytes, Z.mod_small by (simpl; lia).
    rewrite E, length_be_bytes. reflexivity.
Qed.


End FixedWidth.

(** ** Struct and ArrayType preserve exactness *)

Section Combinators.

Lemma writes_forOf2 {A} (body : A -> M unit) xs (bss : list (list Z)) :
  Forall2 (fun x bs => writes (body x) bs) xs bss ->
  writes (forOf xs body) (concat bss).
Proof.
  induction 1 as [|x bs xs bss W _ IH]; simpl.
  - apply writes_ret.
  - apply writes_bind; assumption.
Qed.

Lemma fillFrom_reads (body : M value) vs (bss : list (list Z)) :
  Forall2 (fun v bs => reads body bs v) vs bss ->
  forall done,
    reads (fillFrom (length vs) (length done) body
             (done ++ replicate (length vs) VUndefined))
          (concat bss) (done ++ vs).
Proof.
  induction 1 as [|v bs vs bss R _ IH]; intros done; simpl.
  - rewrite !app_nil_r. apply reads_ret.
  - apply (reads_bind _ _ _ _ _ _ R).
    rewrite (insert_app_r_alt done) by apply Nat.le_refl.
    rewrite Nat.sub_diag. simpl.
    specialize (IH (done ++ [v])).
    rewrite length_app, Nat.add_1_r, <- !app_assoc in IH. exact IH.
Qed.

Lemma sumOf_lengths (f : value -> result Z) vs (bss : list (list Z)) :
  Forall2 (fun v bs => f v = Ok (Z.of_nat (length bs))) vs bss ->
  forall acc, sumOf vs f acc = Ok (acc + Z.of_nat (length (concat bss))).
Proof.
  induction 1 as [|v bs vs bss E _ IH]; intros acc; simpl.
  - rewrite Z.add_0_r. reflexivity.
  - rewrite E. cbn [rbind]. rewrite IH, length_app. f_equal. lia.
Qed.

Lemma fixed_lengths s (vs : list value) (bss : list (list Z)) :
  Forall2 (fun (_ : value) bs => s = Z.of_nat (length bs)) vs bss ->
  s * Z.of_nat (length vs) = Z.of_nat (length (concat bss)).
Proof.
  induction 1 as [|v bs vs bss E _ IH]; simpl; [lia|].
  rewrite length_app. lia.
Qed.

(** An array of exactly handled elements is handled exactly: the varint of
    the count, then the elements' octets one after the other. *)
Lemma ArrayType_exact type vs (bss : list (list Z)) :
  Forall2 (exact_codec type) vs bss ->
  Z.of_nat (length vs) < 2 ^ 31 ->
  exact_codec (ArrayType type) (VArr vs)
    (varint (Z.of_nat (length vs)) ++ concat bss).
Proof.
  intros F Hlen.
  assert (Fs : Forall2 (fun v bs => sizeOf type v = Ok (Z.of_nat (length bs))) vs bss)
    by (eapply Forall2_impl; [exact F|]; intros v bs (S & _ & _); exact S).
  assert (Fw : Forall2 (fun v bs => writes (encode type v) bs) vs bss)
    by (eapply Forall2_impl; [exact F|]; intros v bs (_ & W & _); exact W).
  assert (Fr : Forall2 (fun v bs => reads (decode type) bs v) vs bss)
    by (eapply Forall2_impl; [exact F|]; intros v bs (_ & _ & R); exact R).
  split; [|split].
  - unfold sizeOf, ArrayType. cbn [size elements rbind].
    assert (G : getSizeOf vs type = Ok (Z.of_nat (length (concat bss)))).
    { unfold getSizeOf. unfold sizeOf in Fs. destruct (size type) as [s|f].
      - f_equal. apply fixed_lengths.
        eapply Forall2_impl; [exact Fs|]. intros v bs [= ->]. reflexivity.
      - rewrite (sumOf_lengths f vs bss Fs 0). reflexivity. }
    rewrite G. cbn [rbind]. unfold VarIntSize. rewrite VarInt_size.
    cbn [rbind]. rewrite length_app. f_equal. lia.
  - intros buf off R. unfold encode at 1, ArrayType.
    unfold lengthOf. cbn [elements rbind lift].
    unfold bind at 1. unfold ret at 1.
    apply (writes_bind _ _ _ _ (VarInt_writes _)); [|exact R].
    intros buf' off' R'. unfold bind, ret.
    exact (writes_forOf2 _ _ _ Fw buf' off' R').
  - assert (Hv : 0 <= Z.of_nat (length vs) < 2 ^ 31) by lia.
    unfold decode at 1, ArrayType, decodeArray.
    apply (reads_bind _ _ _ _ _ _ (VarInt_reads _ Hv)).
    intros buf off H. unfold bind at 1. unfold lift, ToInteger, ret at 1.
    unfold bind at 1. unfold newArray.
    destruct (Z.leb_spec 0 (Z.of_nat (length vs))); [|lia].
    destruct (Z.ltb_spec (Z.of_nat (length vs)) (2 ^ 32)); [|lia].
    cbn [andb]. unfold ret at 1. rewrite Nat2Z.id.
    pose proof (fillFrom_reads _ _ _ Fr [] buf off H) as Rf.
    cbn [length app] in Rf. unfold bind. rewrite Rf. reflexivity.
Qed.

Lemma assoc_map_keys {A} (f : string -> A) keys k :
  k ∈ keys -> assoc k (map (fun key => (key, f key)) keys) = Some (f k).
Proof.
  induction keys as [|key keys IH]; intros Hk; simpl.
  - apply elem_of_nil in Hk. contradiction.
  - destruct (decide (key = k)) as [->|Hne]; [reflexivity|].
    apply elem_of_cons in Hk as [->|Hk]; [contradiction|]. apply IH, Hk.
Qed.

(** A struct of exactly handled fields is handled exactly: the fields'
    octets in the order of [keys]. *)
Lemma Struct_exact struct keys (typeOf : string -> DataType) val bytes :
  NoDup keys ->
  (forall k, k ∈ keys -> assoc k struct = Some (typeOf k)) ->
  (forall k, k ∈ keys -> exact_codec (typeOf k) (val k) (bytes k)) ->
  exact_codec (Struct struct keys)
    (VObj (map (fun k => (k, val k)) keys)) (concat (map bytes keys)).
Proof.
  intros N T E.
  assert (G : forall k, k ∈ keys ->
                getProp (VObj (map (fun k => (k, val k)) keys)) k = val k).
  { intros k Hk. unfold getProp. rewrite (assoc_map_keys val keys k Hk).
    reflexivity. }
  split; [|split].
  - unfold sizeOf, Struct. cbn [size].
    unfold StructDefinition.computeSize. rewrite fields_new.
    rewrite (computeSizeFrom_sum struct keys typeOf _
               (fun k => Z.of_nat (length (bytes k))) T).
    + rewrite sumZ_lengths. reflexivity.
    + intros k Hk. rewrite (G k Hk). apply (E k Hk).
  - intros buf off R. unfold encode at 1, Struct.
    rewrite (encode_sequence _ _ _ _ _ T).
    apply (writes_forOf _ bytes keys); [|exact R].
    intros k Hk. rewrite (G k Hk). apply (E k Hk).
  - unfold decode at 1, Struct, StructDefinition.decode. rewrite fields_new.
    apply (decodeFrom_reads struct keys typeOf bytes val T); [|exact N].
    intros k Hk. apply (E k Hk).
Qed.

End Combinators.

(** * Further properties *)

(** ** Fixed-width codecs on every number *)

Section Modular.

Lemma signed_wrap w v : 0 < w -> signed w (v mod 2 ^ w) = wrapSigned w v.
Proof.
  intros Hw. unfold signed, wrapSigned.
  assert (E : 2 ^ w = 2 * 2 ^ (w - 1)).
  { replace w with (1 + (w - 1)) at 1 by lia. rewrite Z.pow_add_r by lia.
    reflexivity. }
  assert (P : 0 < 2 ^ (w - 1)) by (apply Z.pow_pos_nonneg; lia).
  pose proof (Z.mod_pos_bound v (2 ^ w) ltac:(lia)) as B.
  destruct (Z.ltb_spec (v mod 2 ^ w) (2 ^ (w - 1))).
  - symmetry. rewrite <- (Z.add_mod_idemp_l v) by lia.
    rewrite Z.mod_small by lia. lia.
  - symmetry. rewrite <- (Z.add_mod_idemp_l v) by lia.
    rewrite <- (Z.mod_add _ (-1) (2 ^ w)) by lia.
    rewrite Z.mod_small by lia. lia.
Qed.

Lemma wrapSigned_id w v :
  0 < w -> - 2 ^ (w - 1) <= v < 2 ^ (w - 1) -> wrapSigned w v = v.
Proof.
  intros Hw Hv. unfold wrapSigned.
  assert (E : 2 ^ w = 2 * 2 ^ (w - 1)).
  { replace w with (1 + (w - 1)) at 1 by lia. rewrite Z.pow_add_r by lia.
    reflexivity. }
  rewrite Z.mod_small by lia. lia.
Qed.

Lemma signed_transcodes n v :
  (0 < n)%nat ->
  writes (off <- many (Z.of_nat n) ;; DataView.setIntN n off (VNum v))
         (be_bytes n v) /\
  reads (off <- many (Z.of_nat n) ;; DataView.getIntN n off)
        (be_bytes n v) (VNum (wrapSigned (8 * Z.of_nat n) v)).
Proof.
  intros Hn. split; [apply setIntN_writes|].
  pose proof (getIntN_reads n (be_bytes n v) (length_be_bytes n v)) as R.
  rewrite be_value_be_bytes, signed_wrap in R by lia. exact R.
Qed.

Lemma unsigned_transcodes n v :
  writes (off <- many (Z.of_nat n) ;; DataView.setIntN n off (VNum v))
         (be_bytes n v) /\
  reads (off <- many (Z.of_nat n) ;; DataView.getUintN n off)
        (be_bytes n v) (VNum (wrapUnsigned (8 * Z.of_nat n) v)).
Proof.
  split; [apply setIntN_writes|].
  pose proof (getUintN_reads n (be_bytes n v) (length_be_bytes n v)) as R.
  rewrite be_value_be_bytes in R. exact R.
Qed.

End Modular.

(** X1: every integer codec stores the low octets of the number it is given,
    most significant first, whatever the number; decoding gives that number
    reduced to the width of the codec (two's complement for the signed
    codecs), hence the number itself when it lies in the declared range. *)
Theorem integer_codecs_modular :
  (forall v,
     transcodes Int8 (VNum v) (be_bytes 1 v) (VNum (wrapSigned 8 v)) /\
     transcodes Int16 (VNum v) (be_bytes 2 v) (VNum (wrapSigned 16 v)) /\
     transcodes Int32 (VNum v) (be_bytes 4 v) (VNum (wrapSigned 32 v)) /\
     transcodes UInt8 (VNum v) (be_bytes 1 v) (VNum (wrapUnsigned 8 v)) /\
     transcodes UInt16 (VNum v) (be_bytes 2 v) (VNum (wrapUnsigned 16 v)) /\
     transcodes UInt32 (VNum v) (be_bytes 4 v) (VNum (wrapUnsigned 32 v))) /\
  (forall v, -128 <= v <= 127 -> wrapSigned 8 v = v) /\
  (forall v, -32768 <= v <= 32767 -> wrapSigned 16 v = v) /\
  (forall v, -2147483648 <= v <= 2147483647 -> wrapSigned 32 v = v) /\
  (forall v, 0 <= v <= 255 -> wrapUnsigned 8 v = v) /\
  (forall v, 0 <= v <= 65535 -> wrapUnsigned 16 v = v) /\
  (forall v, 0 <= v <= 4294967295 -> wrapUnsigned 32 v = v).
Proof.
  split; [intros v|].
  - repeat split; try reflexivity.
    + exact (proj1 (signed_transcodes 1 v ltac:(lia))).
    + exact (proj2 (signed_transcodes 1 v ltac:(lia))).
    + exact (proj1 (signed_transcodes 2 v ltac:(lia))).
    + exact (proj2 (signed_transcodes 2 v ltac:(lia))).
    + exact (proj1 (signed_transcodes 4 v ltac:(lia))).
    + exact (proj2 (signed_transcodes 4 v ltac:(lia))).
    + exact (proj1 (unsigned_transcodes 1 v)).
    + exact (proj2 (unsigned_transcodes 1 v)).
    + exact (proj1 (unsigned_transcodes 2 v)).
    + exact (proj2 (unsigned_transcodes 2 v)).
    + exact (proj1 (unsigned_transcodes 4 v)).
    + exact (proj2 (unsigned_transcodes 4 v)).
  - repeat split; intros v Hv;
      try (apply wrapSigned_id; simpl; lia);
      unfold wrapUnsigned; apply Z.mod_small; simpl; lia.
Qed.

Lemma integer_codecs_modular_witness :
  -128 <= -3 <= 127 /\ 0 <= 200 <= 255 /\
  transcodes Int8 (VNum 200) (be_bytes 1 200) (VNum (wrapSigned 8 200)) /\
  wrapSigned 8 200 = -56 /\
  wrapSigned 8 (-3) = -3 /\ wrapUnsigned 8 200 = 200.
Proof.
  destruct integer_codecs_modular as (T & S8 & _ & _ & U8 & _).
  split; [lia|]. split; [lia|].
  split; [exact (proj1 (T 200))|]. split; [reflexivity|].
  split; [exact (S8 (-3) ltac:(lia))|exact (U8 200 ltac:(lia))].
Defined.

(** X2: [Bool.encode] stores 1 for a truthy value and 0 for any other;
    [Bool.decode] gives [true] for the octet 1 and [false] for every other
    octet. *)
Theorem Bool_codec :
  (forall v, sizeOf Bool v = Ok 1 /\
             writes (encode Bool v) [if ToBoolean v then 1 else 0]) /\
  (forall b, reads (decode Bool) [b] (VBool (b =? 1))).
Proof.
  split.
  - intros v. split; [reflexivity|].
    destruct (ToBoolean v) eqn:E; intros buf off R;
      unfold encode at 1, Bool; rewrite E;
      [exact (UInt8_writes 1 buf off R)|exact (UInt8_writes 0 buf off R)].
  - intros b buf off H. unfold decode at 1, Bool. unfold bind at 1.
    rewrite (UInt8_reads _ _ _ H). reflexivity.
Qed.

(** X3: [Float64] handles every binary64 number exactly, the infinities
    and the two zeros included: eight octets, the IEEE 754 interchange
    pattern with the sign first.  (NaN is left out: which of its patterns
    an engine stores is not fixed.) *)
Theorem Float64_exact (f : spec_float) :
  valid_binary 53 1024 f = true -> f <> S754_nan ->
  exact_codec Float64 (VFloat f) (be_bytes 8 (bits_of_float 53 1024 11 f)).
Proof.
  intros V _. split; [reflexivity|split].
  - intros buf off R. unfold encode, Float64, bind, many, DataView.setFloat64,
      bind, lift, ToNumber, ret. cbn [tracker buffer].
    rewrite DataView_set_writes by exact R. rewrite length_be_bytes. reflexivity.
  - destruct (binary64_bits_roundtrip f V) as [B E].
    intros buf off Hh. unfold decode, Float64, bind, many, DataView.getFloat64,
      bind, ret. cbn [tracker buffer].
    pose proof (DataView_get_reads off _ buf (off + 8) Hh) as G.
    rewrite length_be_bytes in G. rewrite G.
    rewrite be_value_be_bytes, Z.mod_small by (simpl; lia).
    rewrite E, length_be_bytes. reflexivity.
Qed.

Lemma Float64_exact_witness :
  valid_binary 53 1024 minus_2_5_f = true /\ minus_2_5_f <> S754_nan /\
  exact_codec Float64 (VFloat minus_2_5_f)
    (be_bytes 8 (bits_of_float 53 1024 11 minus_2_5_f)).
Proof.
  assert (V : valid_binary 53 1024 minus_2_5_f = true) by reflexivity.
  assert (N : minus_2_5_f <> S754_nan) by discriminate.
  split; [exact V|]. split; [exact N|]. exact (Float64_exact minus_2_5_f V N).
Defined.

(** ** Float32.decode *)

Section Binary32.

Lemma binary32_fields (sg : bool) E M :
  0 <= E < 2 ^ 8 -> 0 <= M < 2 ^ 23 ->
  let x := (if sg then 2 ^ 31 else 0) + E * 2 ^ 23 + M in
  0 <= x < 2 ^ 32 /\
  Z.testbit x 31 = sg /\ (x / 2 ^ 23) mod 2 ^ 8 = E /\ x mod 2 ^ 23 = M.
Proof.
  intros HE HM x.
  assert (Q : x / 2 ^ 23 = (if sg then 2 ^ 8 else 0) + E).
  { symmetry. apply (Z.div_unique x (2 ^ 23) _ M); [lia|].
    unfold x. destruct sg; lia. }
  assert (Q31 : x / 2 ^ 31 = if sg then 1 else 0).
  { symmetry. apply (Z.div_unique x (2 ^ 31) _ (E * 2 ^ 23 + M)); [lia|].
    unfold x. destruct sg; lia. }
  split; [unfold x; destruct sg; lia|]. split; [|split].
  - pose proof (Z.testbit_spec' x 31 ltac:(lia)) as T. rewrite Q31 in T.
    destruct (Z.testbit x 31), sg; simpl in T; try reflexivity; discriminate.
  - rewrite Q. symmetry.
    apply (Z.mod_unique _ (2 ^ 8) (if sg then 1 else 0)); [lia|].
    destruct sg; lia.
  - symmetry. apply (Z.mod_unique x (2 ^ 23) ((if sg then 2 ^ 8 else 0) + E)); [lia|].
    unfold x. destruct sg; lia.
Qed.

Lemma binary32_bits_roundtrip f :
  valid_binary 24 128 f = true ->
  0 <= bits_of_float 24 128 8 f < 2 ^ 32 /\
  float_of_bits 24 128 8 (bits_of_float 24 128 8 f) = f.
Proof.
  destruct f as [s|s| |s m e]; intros V.
  - destruct s; split; try (vm_compute; split; congruence); reflexivity.
  - destruct s; split; try (vm_compute; split; congruence); reflexivity.
  - split; try (vm_compute; split; congruence); reflexivity.
  - unfold valid_binary, bounded, canonical_mantissa, fexp, emin in V.
    apply andb_true_iff in V as [V1 V2].
    apply Z.eqb_eq in V1. apply Z.leb_le in V2.
    pose proof (digits2_pos_bounds m) as D.
    set (d := Zpos (digits2_pos m)) in *.
    unfold bits_of_float, float_of_bits, sign_bit, mw, emin.
    change (24 - 1) with 23. change (23 + 8) with 31.
    change (3 - 128 - 24) with (-149).
    change (3 - 128 - 24) with (-149) in V1.
    change (128 - 24) with 104 in V2.
    destruct (Z.ltb_spec (Zpos m) (2 ^ 23)) as [Hsub|Hnorm].
    + assert (d <= 23).
      { destruct (Z.le_gt_cases d 23); [assumption|].
        assert (2 ^ 23 <= 2 ^ (d - 1)) by (apply Z.pow_le_mono_r; lia). lia. }
      assert (e = -149) by lia. subst e.
      destruct (binary32_fields s 0 (Zpos m) ltac:(lia) ltac:(lia))
        as (R & T & E & M).
      rewrite Z.mul_0_l, Z.add_0_r in R, T, E, M.
      split; [exact R|]. rewrite T, E, M. reflexivity.
    + assert (d = 24).
      { destruct (Z.lt_trichotomy d 24) as [Hlt|[Heq|Hgt]]; [|exact Heq|].
        - assert (2 ^ d <= 2 ^ 23) by (apply Z.pow_le_mono_r; lia). lia.
        - lia. }
      assert (Hm : Zpos m < 2 ^ 24) by (replace 24 with d by lia; apply D).
      destruct (binary32_fields s (e - -149 + 1) (Zpos m - 2 ^ 23)
                  ltac:(lia) ltac:(lia)) as (R & T & E & M).
      split; [exact R|]. rewrite T, E, M.
      destruct (Z.eqb_spec (e - -149 + 1) 0); [lia|].
      destruct (Z.eqb_spec (e - -149 + 1) (2 ^ 8 - 1)); [lia|].
      replace (Z.pos m - 2 ^ 23 + 2 ^ 23) with (Zpos m) by lia.
      f_equal. lia.
Qed.

End Binary32.

(** X4: [Float32.decode] is the binary32 reader: from the four octets of
    the interchange pattern of a binary32 datum it returns that datum, as
    the Number of the same value, and moves the tracker over the four
    octets. *)
Theorem Float32_decodes_binary32 (f : spec_float) :
  valid_binary 24 128 f = true ->
  reads (decode Float32) (be_bytes 4 (bits_of_float 24 128 8 f))
        (VFloat (widen32 f)).
Proof.
  intros V. destruct (binary32_bits_roundtrip f V) as [B E].
  intros buf off Hh. unfold decode, Float32, bind, many, DataView.getFloat32,
    bind, ret. cbn [tracker buffer].
  pose proof (DataView_get_reads off _ buf (off + 4) Hh) as G.
  rewrite length_be_bytes in G. rewrite G.
  rewrite be_value_be_bytes, Z.mod_small by (simpl; lia).
  rewrite E, length_be_bytes. reflexivity.
Qed.

Lemma Float32_decodes_binary32_witness :
  reads (decode Float32) [0x3F; 0xC0; 0; 0]
        (VFloat (S754_finite false 6755399441055744 (-52))).
Proof.
  exact (Float32_decodes_binary32 (S754_finite false 12582912 (-23)) eq_refl).
Defined.

(** ** VarInt on every integer *)

Section VarIntAll.

Import JS VarIntLoops.

Lemma size_loop_bound n : forall fuel v s,
  (n < fuel)%nat -> v < 2 ^ 31 -> v < 128 ^ (Z.of_nat n + 1) ->
  exists r, size_loop fuel v s = Ok r /\ s + 1 <= r <= s + Z.of_nat n + 1.
Proof.
  induction n as [|n IH]; intros fuel v s Hf H31 H;
    (destruct fuel as [|fuel]; [lia|]); cbn [size_loop].
  - simpl in H. destruct (Z.leb_spec 0x80 v); [lia|]. exists (s + 1). split; [reflexivity|lia].
  - destruct (Z.leb_spec 0x80 v); [|exists (s + 1); split; [reflexivity|lia]].
    replace (Z.of_nat (S n) + 1) with (1 + (Z.of_nat n + 1)) in H by lia.
    rewrite Z.pow_add_r in H by lia.
    destruct (IH fuel (sar v 7) (s + 1)) as (r & E & B).
    + lia.
    + rewrite sar7_small by lia. apply Z.div_lt_upper_bound; lia.
    + rewrite sar7_small by lia. apply Z.div_lt_upper_bound; lia.
    + exists r. split; [exact E|lia].
Qed.

Lemma size_loop_at_most_5 v :
  exists r, size_loop budget v 0 = Ok r /\ 1 <= r <= 5.
Proof.
  unfold budget. cbn [size_loop].
  destruct (Z.leb_spec 0x80 v); [|exists 1; split; [reflexivity|lia]].
  pose proof (sar7_range v).
  destruct (size_loop_bound 3 5 (sar v 7) (0 + 1)) as (r & E & B);
    [lia|lia|simpl; lia|].
  exists r. split; [exact E|lia].
Qed.

Lemma int32_shiftr z : int32 z <-> Z.shiftr z 31 = 0 \/ Z.shiftr z 31 = -1.
Proof.
  unfold int32. rewrite Z.shiftr_div_pow2 by lia. split.
  - intros H. destruct (Z.le_gt_cases 0 z).
    + left. apply Z.div_small. lia.
    + right. symmetry. apply (Z.div_unique z (2 ^ 31) (-1) (z + 2 ^ 31)); lia.
  - pose proof (Z.div_mod z (2 ^ 31) ltac:(lia)) as D.
    pose proof (Z.mod_pos_bound z (2 ^ 31) ltac:(lia)) as B.
    intros [E|E]; rewrite E in D; lia.
Qed.

Lemma int32_lor a b : int32 a -> int32 b -> int32 (Z.lor a b).
Proof.
  rewrite !int32_shiftr, Z.shiftr_lor.
  intros [-> | ->] [-> | ->]; simpl; auto.
Qed.

Lemma int32_bor a b : int32 (bor a b).
Proof. apply int32_lor; apply ToInt32_range. Qed.

Lemma decode_loop_int32 count : forall i value bitOffset h v h',
  int32 value ->
  decode_loop count i value bitOffset h = Return v h' -> int32 v.
Proof.
  induction count as [|count IH]; intros i value bitOffset h v h' Hv;
    cbn [decode_loop].
  - unfold ret. intros [= <- _]. exact Hv.
  - unfold bind at 1. destruct (decode UInt8 h) as [b h1|e h1]; [|discriminate].
    unfold bind at 1. destruct (ToInteger b) as [byte|e]; [|discriminate].
    cbn [lift]. unfold ret at 1.
    destruct (byte <? 0x80).
    + destruct ((i =? 9) && (1 <? byte)); unfold ret; intros [= <- _];
        [exact Hv|apply int32_bor].
    + apply IH, int32_bor.
Qed.

End VarIntAll.

(** X5: whatever integer it is given, [VarInt.size] returns a number from 1
    to 5 and [VarInt.encode] stores exactly that many octets: the encoder
    never produces the six to ten octets the decoder is prepared to read. *)
Theorem VarInt_encodes_1_to_5 (v : Z) :
  exists n bs,
    sizeOf VarInt (VNum v) = Ok n /\ 1 <= n <= 5 /\
    Z.of_nat (length bs) = n /\ writes (encode VarInt (VNum v)) bs.
Proof.
  destruct (size_loop_at_most_5 v) as (r & E & B).
  exists r, (varint v).
  assert (S : sizeOf VarInt (VNum v) = Ok r) by exact E.
  split; [exact S|]. split; [exact B|].
  rewrite VarInt_size in S. injection S as S.
  split; [exact S|apply VarInt_writes].
Qed.

(** X6: whatever the buffer holds, a number [VarInt.decode] returns lies in
    the signed 32-bit range: never above 2147483647, and possibly negative. *)
Theorem VarInt_decode_int32 (buf : list Z) (off : Z) (v : value) (h : heap) :
  run (decode VarInt) buf off = Return v h ->
  exists n, v = VNum n /\ - 2 ^ 31 <= n < 2 ^ 31.
Proof.
  unfold run, decode, VarInt, bind.
  destruct (VarIntLoops.decode_loop 10 0 0 0 (Heap buf off)) as [n h1|e h1] eqn:E;
    [|discriminate].
  unfold ret. intros [= <- _]. exists n. split; [reflexivity|].
  assert (Z0 : int32 0) by (unfold int32; lia).
  exact (decode_loop_int32 _ _ _ _ _ _ _ Z0 E).
Qed.

Lemma VarInt_decode_int32_witness :
  run (decode VarInt) [0xFF; 0xFF; 0xFF; 0xFF; 0x0F] 0
  = Return (VNum (-1)) (Heap [0xFF; 0xFF; 0xFF; 0xFF; 0x0F] 5) /\
  exists n, VNum (-1) = VNum n /\ - 2 ^ 31 <= n < 2 ^ 31.
Proof.
  assert (E : run (decode VarInt) [0xFF; 0xFF; 0xFF; 0xFF; 0x0F] 0
              = Return (VNum (-1)) (Heap [0xFF; 0xFF; 0xFF; 0xFF; 0x0F] 5))
    by reflexivity.
  split; [exact E|]. exact (VarInt_decode_int32 _ _ _ _ E).
Defined.

(** ** ByteArray and Str on the wire *)



(** X8: when the length read from the buffer is negative, or larger than
    what is left of the buffer, [ByteArray.decode] and [Str.decode] throw
    [RangeError]; the tracker has by then been moved by that length, so it
    stands beyond the end of the buffer, or back before the payload. *)
Theorem length_prefix_out_of_range (buf : list Z) (off n : Z) (h : heap) :
  run (decode VarInt) buf off = Return (VNum n) h ->
  n < 0 \/ Z.of_nat (length (buffer h)) < tracker h + n ->
  run (decode ByteArray) buf off
  = Throw RangeError (Heap (buffer h) (tracker h + n)) /\
  run (decode Str) buf off
  = Throw RangeError (Heap (buffer h) (tracker h + n)).
Proof.
  intros R Hn.
  assert (E : run (decode ByteArray) buf off
              = Throw RangeError (Heap (buffer h) (tracker h + n))).
  { unfold run in *. unfold decode at 1, ByteArray. unfold bind at 1.
    rewrite R. unfold bind, lift, ToInteger, ret, many, newUint8Array.
    cbn [tracker buffer]. unfold in_bounds.
    destruct (Z.leb_spec 0 n); [|reflexivity].
    rewrite Z2Nat.id by lia.
    destruct (Z.leb_spec (tracker h + n) (Z.of_nat (length (buffer h))));
      [lia|]. rewrite andb_false_r. reflexivity. }
  split; [exact E|].
  unfold run in *. unfold decode at 1, Str. unfold bind. rewrite E. reflexivity.
Qed.

Lemma length_prefix_out_of_range_witness :
  run (decode VarInt) [0x03; 0x61] 0 = Return (VNum 3) (Heap [0x03; 0x61] 1) /\
  (3 < 0 \/ Z.of_nat (length (buffer (Heap [0x03; 0x61] 1)))
            < tracker (Heap [0x03; 0x61] 1) + 3) /\
  run (decode ByteArray) [0x03; 0x61] 0
  = Throw RangeError (Heap [0x03; 0x61] (1 + 3)) /\
  run (decode Str) [0x03; 0x61] 0
  = Throw RangeError (Heap [0x03; 0x61] (1 + 3)).
Proof.
  assert (R : run (decode VarInt) [0x03; 0x61] 0
              = Return (VNum 3) (Heap [0x03; 0x61] 1)) by reflexivity.
  assert (N : 3 < 0 \/ Z.of_nat (length (buffer (Heap [0x03; 0x61] 1)))
                       < tracker (Heap [0x03; 0x61] 1) + 3)
    by (right; simpl; lia).
  split; [exact R|]. split; [exact N|].
  exact (length_prefix_out_of_range _ _ _ _ R N).
Defined.

(** ** ArrayType and getSizeOf *)

Section Arrays.

Lemma sumOf_sizes (f : value -> result Z) vs (sizes : list Z) :
  Forall2 (fun v s => f v = Ok s) vs sizes ->
  forall acc, sumOf vs f acc = Ok (acc + sumZ sizes).
Proof.
  induction 1 as [|v s vs sizes E _ IH]; intros acc; simpl.
  - rewrite Z.add_0_r. reflexivity.
  - rewrite E. cbn [rbind]. rewrite IH. unfold sumZ. simpl. f_equal. lia.
Qed.

Lemma fixed_sizes s (vs : list value) (sizes : list Z) :
  Forall2 (fun (_ : value) s' => s = s') vs sizes ->
  s * Z.of_nat (length vs) = sumZ sizes.
Proof.
  induction 1 as [|v s' vs sizes E _ IH]; unfold sumZ in *; simpl; [lia|].
  subst s'. lia.
Qed.

End Arrays.

(** X9: [getSizeOf] is the sum of the sizes of the values under the type,
    whether it multiplies a fixed size by the count or adds the computed
    sizes up; for an empty list it is 0. *)
Theorem getSizeOf_is_the_sum (type : DataType) (vs : list value) (sizes : list Z) :
  Forall2 (fun v s => sizeOf type v = Ok s) vs sizes ->
  getSizeOf vs type = Ok (sumZ sizes).
Proof.
  intros F. unfold getSizeOf. unfold sizeOf in F. destruct (size type) as [s|f].
  - f_equal. apply fixed_sizes.
    eapply Forall2_impl; [exact F|]. intros v s' [= ->]. reflexivity.
  - rewrite (sumOf_sizes f vs sizes F 0). reflexivity.
Qed.

Lemma getSizeOf_is_the_sum_witness :
  Forall2 (fun v s => sizeOf Str v = Ok s)
          [VStr (codeUnits "ab"); VStr []] [3; 1] /\
  getSizeOf [VStr (codeUnits "ab"); VStr []] Str = Ok (sumZ [3; 1]).
Proof.
  assert (F : Forall2 (fun v s => sizeOf Str v = Ok s)
                [VStr (codeUnits "ab"); VStr []] [3; 1])
    by (repeat constructor).
  split; [exact F|]. exact (getSizeOf_is_the_sum Str _ _ F).
Defined.

(** X10: an array of fewer than 2^31 elements, each handled exactly by the
    element type, is handled exactly by [ArrayType]: the varint of the
    count, then the elements' octets one after the other. *)
Theorem ArrayType_handles_arrays (type : DataType) (vs : list value)
    (bss : list (list Z)) :
  Forall2 (exact_codec type) vs bss ->
  Z.of_nat (length vs) < 2 ^ 31 ->
  exact_codec (ArrayType type) (VArr vs)
    (varint (Z.of_nat (length vs)) ++ concat bss).
Proof. exact (ArrayType_exact type vs bss). Qed.

Lemma ArrayType_handles_arrays_witness :
  Forall2 (exact_codec UInt16) [VNum 258; VNum 3] [[1; 2]; [0; 3]] /\
  Z.of_nat (length [VNum 258; VNum 3]) < 2 ^ 31 /\
  exact_codec (ArrayType UInt16) (VArr [VNum 258; VNum 3])
    (varint (Z.of_nat (length [VNum 258; VNum 3])) ++ concat [[1; 2]; [0; 3]]).
Proof.
  destruct primitive_codecs_exact as (_ & _ & _ & _ & U16 & _).
  assert (F : Forall2 (exact_codec UInt16) [VNum 258; VNum 3] [[1; 2]; [0; 3]]).
  { constructor; [exact (U16 258 ltac:(lia))|].
    constructor; [exact (U16 3 ltac:(lia))|constructor]. }
  assert (L : Z.of_nat (length [VNum 258; VNum 3]) < 2 ^ 31) by (simpl; lia).
  split; [exact F|]. split; [exact L|].
  exact (ArrayType_handles_arrays UInt16 _ _ F L).
Defined.

(** X11: when the count read from the buffer is negative, the decoder of
    an [ArrayType], and of a [StructArray], throws [RangeError] from
    [new Array(count)] before it reads any element. *)
Theorem array_negative_count (buf : list Z) (off n : Z) (h : heap) :
  run (decode VarInt) buf off = Return (VNum n) h ->
  n < 0 ->
  (forall type, run (decode (ArrayType type)) buf off = Throw RangeError h) /\
  (forall struct keys,
     run (decode (StructArray struct keys)) buf off = Throw RangeError h).
Proof.
  intros R Hn.
  assert (E : forall body, decodeArray body (Heap buf off) = Throw RangeError h).
  { intros body. unfold run in R. unfold decodeArray. unfold bind at 1.
    rewrite R. unfold bind, lift, ToInteger, ret, newArray.
    destruct (Z.leb_spec 0 n); [lia|reflexivity]. }
  split; [intros type|intros struct keys]; apply E.
Qed.

Lemma array_negative_count_witness :
  run (decode VarInt) [0xFF; 0xFF; 0xFF; 0xFF; 0x0F; 0x07] 0
  = Return (VNum (-1)) (Heap [0xFF; 0xFF; 0xFF; 0xFF; 0x0F; 0x07] 5) /\
  -1 < 0 /\
  run (decode (ArrayType UInt8)) [0xFF; 0xFF; 0xFF; 0xFF; 0x0F; 0x07] 0
  = Throw RangeError (Heap [0xFF; 0xFF; 0xFF; 0xFF; 0x0F; 0x07] 5).
Proof.
  assert (R : run (decode VarInt) [0xFF; 0xFF; 0xFF; 0xFF; 0x0F; 0x07] 0
              = Return (VNum (-1)) (Heap [0xFF; 0xFF; 0xFF; 0xFF; 0x0F; 0x07] 5))
    by reflexivity.
  assert (N : -1 < 0) by lia.
  split; [exact R|]. split; [exact N|].
  exact (proj1 (array_negative_count _ _ _ _ R N) UInt8).
Defined.

(** ** MapType with string keys *)

Section Maps.





Lemma propertyOrderFrom_NoDup keys : forall before,
  propertyOrderFrom before keys -> NoDup before -> NoDup (before ++ keys).
Proof.
  induction keys as [|k keys IH]; intros before H N; simpl in H.
  - rewrite app_nil_r. exact N.
  - destruct H as (_ & Hn & _ & H).
    replace (before ++ k :: keys) with ((before ++ [k]) ++ keys)
      by (rewrite <- app_assoc; reflexivity).
    apply IH; [exact H|]. apply NoDup_app. repeat split; [exact N| |].
    + intros y Hy Hy'. apply list_elem_of_singleton in Hy'. subst y. contradiction.
    + apply NoDup_singleton.
Qed.






End Maps.



Section MapDecoding.









End MapDecoding.

(** X13: a map whose count on the wire is zero or negative decodes to the
    empty object, whatever the key and value types and whatever follows the
    count: the count is not checked, and nothing after it is read. *)
Theorem MapType_count_not_positive (keyType valueType : DataType)
    (buf : list Z) (off n : Z) (h : heap) :
  run (decode VarInt) buf off = Return (VNum n) h ->
  n <= 0 ->
  run (decode (MapType keyType valueType)) buf off = Return (VObj []) h.
Proof.
  unfold run. intros H Hn. unfold decode at 1, MapType. unfold bind at 1.
  rewrite H. unfold bind at 1. cbn [lift ToInteger]. unfold ret at 1.
  replace (Z.to_nat n) with O by lia. reflexivity.
Qed.

Lemma MapType_count_not_positive_witness :
  run (decode (MapType Str UInt8)) [0xFF; 0xFF; 0xFF; 0xFF; 0x0F; 1; 97; 4] 0
  = Return (VObj []) (Heap [0xFF; 0xFF; 0xFF; 0xFF; 0x0F; 1; 97; 4] 5).
Proof.
  apply (MapType_count_not_positive Str UInt8 _ 0 (-1)); [reflexivity|lia].
Defined.



(** ** Struct and StructArray as data types *)

(** X15: a struct whose fields are handled exactly by their data types is
    handled exactly by [Struct]: the fields' octets in the order of [keys],
    so that structs nest in structs and arrays like any other type.  The
    keys are distinct and listed in property order, so that the object the
    decoder builds key by key lists them as [keys] does. *)
Theorem Struct_handles_structs (struct : StructLayout) (keys : StructKeys)
    (typeOf : string -> DataType) (val : string -> value)
    (bytes : string -> list Z) :
  propertyOrder keys ->
  (forall k, k ∈ keys -> assoc k struct = Some (typeOf k)) ->
  (forall k, k ∈ keys -> exact_codec (typeOf k) (val k) (bytes k)) ->
  exact_codec (Struct struct keys)
    (VObj (map (fun k => (k, val k)) keys)) (concat (map bytes keys)).
Proof.
  intros O. apply (Struct_exact struct keys typeOf val bytes).
  exact (propertyOrderFrom_NoDup keys [] O (NoDup_nil_2)).
Qed.

Lemma Struct_handles_structs_witness :
  propertyOrder ["id"; "on"] /\
  (forall k, k ∈ ["id"; "on"] ->
     assoc k [("on", Bool); ("id", UInt16)]
     = Some (if decide (k = "id") then UInt16 else Bool)) /\
  (forall k, k ∈ ["id"; "on"] ->
     exact_codec (if decide (k = "id") then UInt16 else Bool)
       (if decide (k = "id") then VNum 258 else VBool true)
       (if decide (k = "id") then [1; 2] else [1])) /\
  exact_codec (Struct [("on", Bool); ("id", UInt16)] ["id"; "on"])
    (VObj (map (fun k => (k, if decide (k = "id") then VNum 258 else VBool true))
               ["id"; "on"]))
    (concat (map (fun k => if decide (k = "id") then [1; 2] else [1]) ["id"; "on"])).
Proof.
  assert (N : propertyOrder ["id"; "on"]).
  { unfold propertyOrder. simpl.
    repeat split; try discriminate; repeat constructor;
      apply (bool_decide_unpack _); reflexivity. }
  assert (T : forall k, k ∈ ["id"; "on"] ->
                assoc k [("on", Bool); ("id", UInt16)]
                = Some (if decide (k = "id") then UInt16 else Bool)).
  { intros k Hk. rewrite !elem_of_cons, elem_of_nil in Hk.
    destruct Hk as [->|[->|[]]]; reflexivity. }
  assert (E : forall k, k ∈ ["id"; "on"] ->
                exact_codec (if decide (k = "id") then UInt16 else Bool)
                  (if decide (k = "id") then VNum 258 else VBool true)
                  (if decide (k = "id") then [1; 2] else [1])).
  { destruct primitive_codecs_exact as (_ & _ & _ & _ & U16 & _ & B & _).
    intros k Hk. rewrite !elem_of_cons, elem_of_nil in Hk.
    destruct Hk as [->|[->|[]]]; [exact (U16 258 ltac:(lia))|exact (B true)]. }
  split; [exact N|]. split; [exact T|]. split; [exact E|].
  exact (Struct_handles_structs _ _ _ _ _ N T E).
Defined.

(** X16: [StructArray(struct, keys)] is [ArrayType(Struct(struct, keys))]:
    the two data types give the same size for every value and run the same
    encoder and the same decoder on every view and tracker. *)
Theorem StructArray_is_ArrayType_of_Struct (struct : StructLayout)
    (keys : StructKeys) :
  (forall v, sizeOf (StructArray struct keys) v
             = sizeOf (ArrayType (Struct struct keys)) v) /\
  (forall v h, encode (StructArray struct keys) v h
               = encode (ArrayType (Struct struct keys)) v h) /\
  (forall h, decode (StructArray struct keys) h
             = decode (ArrayType (Struct struct keys)) h).
Proof.
  split; [|split].
  - intros v. unfold sizeOf, StructArray, ArrayType, getSizeOf, Struct.
    cbn [size]. destruct (elements v) as [elms|e]; [|reflexivity].
    cbn [rbind].
    destruct (sumOf elms _ 0) as [s|e]; [|reflexivity]. cbn [rbind].
    destruct (VarIntSize _) as [n|e]; [|reflexivity]. cbn [rbind].
    f_equal. lia.
  - intros v h. reflexivity.
  - intros h. reflexivity.
Qed.

(** ** StructDefinition: keys the layout does not have, fields the keys omit *)

Section Keys.

Lemma forOf_app {A} (body : A -> M unit) xs ys h :
  forOf (xs ++ ys) body h = (forOf xs body ;; forOf ys body) h.
Proof.
  revert h. induction xs as [|x xs IH]; intros h; simpl.
  - reflexivity.
  - unfold bind. destruct (body x h) as [[] h1|e h1]; [|reflexivity].
    rewrite IH. reflexivity.
Qed.

Lemma computeSizeFrom_missing struct pre k post (typeOf : string -> DataType) v :
  assoc k struct = None ->
  (forall k', k' ∈ pre -> assoc k' struct = Some (typeOf k')) ->
  (forall k', k' ∈ pre -> exists s, sizeOf (typeOf k') (getProp v k') = Ok s) ->
  forall acc,
    StructDefinition.computeSizeFrom
      (map (fun key => Some (key, assoc key struct)) (pre ++ k :: post)) v acc
    = Err TypeError.
Proof.
  intros Hk. induction pre as [|k' pre IH]; intros T S acc; simpl.
  - rewrite Hk. reflexivity.
  - rewrite (T k') by left. cbn [rbind fst snd].
    destruct (S k' ltac:(left)) as [s E]. rewrite E. cbn [rbind].
    apply IH.
    + intros k0 H0. apply T. right. exact H0.
    + intros k0 H0. apply S. right. exact H0.
Qed.

Lemma assoc_filter_keys {A} (keys : list string) k (o : list (string * A)) :
  k ∈ keys -> assoc k (filter (fun p => p.1 ∈ keys) o) = assoc k o.
Proof.
  intros Hk. induction o as [|[k' x] o IH]; [reflexivity|].
  rewrite filter_cons. cbn [fst]. destruct (decide (k' ∈ keys)) as [Hin|Hout]; simpl.
  - rewrite IH. reflexivity.
  - destruct (decide (k' = k)) as [->|]; [contradiction|]. exact IH.
Qed.

Lemma fillFields_ext struct struct' keys :
  (forall k, k ∈ keys -> assoc k struct' = assoc k struct) ->
  forall i fs,
    StructDefinition.fillFields struct' keys i fs
    = StructDefinition.fillFields struct keys i fs.
Proof.
  induction keys as [|k keys IH]; intros E i fs; simpl; [reflexivity|].
  rewrite (E k) by left. apply IH. intros k' Hk'. apply E. right. exact Hk'.
Qed.

End Keys.

(** X17: a key that the layout does not have is not noticed when the
    definition is built.  [computeSize] then throws [TypeError], so [create]
    fails before it allocates a buffer or touches the tracker; [encode]
    first stores the fields that come before the key and only then throws,
    leaving their octets in the buffer and the tracker after them. *)
Theorem missing_key_is_found_late (struct : StructLayout)
    (pre : StructKeys) (k : string) (post : StructKeys)
    (typeOf : string -> DataType) (v : value) (enc : string -> list Z) :
  assoc k struct = None ->
  (forall k', k' ∈ pre -> assoc k' struct = Some (typeOf k')) ->
  (forall k', k' ∈ pre -> writes (encode (typeOf k') (getProp v k')) (enc k')) ->
  (forall k', k' ∈ pre -> exists s, sizeOf (typeOf k') (getProp v k') = Ok s) ->
  StructDefinition.computeSize (StructDefinition.new struct (pre ++ k :: post)) v
  = Err TypeError /\
  (forall id buf t,
     run (PacketDefinition.create
            (PacketDefinition.new id struct (pre ++ k :: post)) v) buf t
     = Throw TypeError (Heap buf t)) /\
  (forall buf off,
     room buf off (length (concat (map enc pre))) ->
     StructDefinition.encode (StructDefinition.new struct (pre ++ k :: post)) v
       (Heap buf off)
     = Throw TypeError
         (Heap (write_bytes off (concat (map enc pre)) buf)
               (off + Z.of_nat (length (concat (map enc pre)))))).
Proof.
  intros Hk T W S.
  assert (C : StructDefinition.computeSize
                (StructDefinition.new struct (pre ++ k :: post)) v
              = Err TypeError).
  { unfold StructDefinition.computeSize. rewrite fields_new.
    exact (computeSizeFrom_missing struct pre k post typeOf v Hk T S 0). }
  split; [exact C|]. split.
  - intros id buf t. unfold run, PacketDefinition.create, PacketDefinition.new.
    cbn [PacketDefinition.id PacketDefinition.super]. rewrite C.
    unfold VarIntSize. rewrite VarInt_size. reflexivity.
  - intros buf off R. unfold StructDefinition.encode.
    rewrite fields_new, forOf_map, forOf_app. unfold bind at 1.
    assert (Wp : writes (forOf pre (fun x =>
                   kt <- lift (StructDefinition.field (Some (x, assoc x struct))) ;;
                   encode kt.2 (getProp v kt.1)))
                 (concat (map enc pre))).
    { apply writes_forOf. intros k' Hk' b o Rb. rewrite (T k' Hk').
      exact (W k' Hk' b o Rb). }
    rewrite (Wp buf off R). cbn [forOf]. unfold bind at 1.
    rewrite Hk. reflexivity.
Qed.

Lemma missing_key_is_found_late_witness :
  assoc "age" [("name", Str)] = None /\
  (forall k', k' ∈ ["name"] -> assoc k' [("name", Str)] = Some Str) /\
  (forall k', k' ∈ ["name"] ->
     writes (encode Str (getProp (VObj [("name", VStr (codeUnits "ab"))]) k')) [2; 0x61; 0x62]) /\
  (forall k', k' ∈ ["name"] -> exists s, sizeOf Str (getProp (VObj [("name", VStr (codeUnits "ab"))]) k') = Ok s) /\
  StructDefinition.computeSize
    (StructDefinition.new [("name", Str)] (["name"] ++ "age" :: [])) (VObj [("name", VStr (codeUnits "ab"))])
  = Err TypeError /\
  (forall id buf t,
     run (PacketDefinition.create
            (PacketDefinition.new id [("name", Str)] (["name"] ++ "age" :: []))
            (VObj [("name", VStr (codeUnits "ab"))])) buf t
     = Throw TypeError (Heap buf t)) /\
  (forall buf off,
     room buf off (length (concat (map (fun _ : string => [2; 0x61; 0x62]) ["name"]))) ->
     StructDefinition.encode
       (StructDefinition.new [("name", Str)] (["name"] ++ "age" :: [])) (VObj [("name", VStr (codeUnits "ab"))])
       (Heap buf off)
     = Throw TypeError
         (Heap (write_bytes off
                  (concat (map (fun _ : string => [2; 0x61; 0x62]) ["name"])) buf)
               (off + Z.of_nat (length
                  (concat (map (fun _ : string => [2; 0x61; 0x62]) ["name"])))))).
Proof.
  assert (K : assoc "age" [("name", Str)] = None) by reflexivity.
  assert (T : forall k', k' ∈ ["name"] -> assoc k' [("name", Str)] = Some Str).
  { intros k' Hk'. rewrite elem_of_cons, elem_of_nil in Hk'.
    destruct Hk' as [->|[]]. reflexivity. }
  assert (W : forall k', k' ∈ ["name"] ->
                writes (encode Str (getProp (VObj [("name", VStr (codeUnits "ab"))]) k')) [2; 0x61; 0x62]).
  { intros k' Hk'. rewrite elem_of_cons, elem_of_nil in Hk'.
    destruct Hk' as [->|[]].
    exact (lengthPrefixed_writes (VStr (codeUnits "ab")) (codeUnits "ab") eq_refl). }
  assert (S : forall k', k' ∈ ["name"] ->
                exists s, sizeOf Str (getProp (VObj [("name", VStr (codeUnits "ab"))]) k') = Ok s).
  { intros k' Hk'. rewrite elem_of_cons, elem_of_nil in Hk'.
    destruct Hk' as [->|[]]. exists 3. reflexivity. }
  split; [exact K|]. split; [exact T|]. split; [exact W|]. split; [exact S|].
  exact (missing_key_is_found_late [("name", Str)] ["name"] "age" []
           (fun _ => Str) (VObj [("name", VStr (codeUnits "ab"))]) (fun _ => [2; 0x61; 0x62]) K T W S).
Defined.

(** X18: a definition depends on the layout only through the data types of
    the keys it is given: fields of the layout that [keys] does not name are
    left out of the definition, unnoticed, and so of every size, encoding
    and decoding. *)
Theorem unlisted_fields_are_ignored (struct : StructLayout) (keys : StructKeys) :
  StructDefinition.new (filter (fun p => p.1 ∈ keys) struct) keys
  = StructDefinition.new struct keys.
Proof.
  unfold StructDefinition.new. f_equal. apply fillFields_ext.
  intros k Hk. apply assoc_filter_keys, Hk.
Qed.

(** ** The socket *)

Section Socket.

Lemma setWriteTracker_same s off :
  SocketState.writeTracker s = off -> SocketState.setWriteTracker s off = s.
Proof. intros <-. destruct s. reflexivity. Qed.

Lemma setReadTracker_same s off :
  SocketState.readTracker s = off -> SocketState.setReadTracker s off = s.
Proof. intros <-. destruct s. reflexivity. Qed.

Lemma UInt8_encode_beyond z buf off :
  Z.of_nat (length buf) <= off ->
  encode UInt8 (VNum z) (Heap buf off) = Throw RangeError (Heap buf (off + 1)).
Proof.
  intros H. unfold encode, UInt8, bind, one, DataView.setUint8,
    DataView.setIntN, bind, lift, ToInteger, ret, DataView.set.
  cbn [tracker buffer]. unfold in_bounds. rewrite length_be_bytes.
  destruct (Z.leb_spec 0 off); cbn [andb];
    [destruct (Z.leb_spec (off + Z.of_nat 1) (Z.of_nat (length buf))); [lia|]|];
    reflexivity.
Qed.

Lemma VarInt_encode_beyond v buf off :
  Z.of_nat (length buf) <= off ->
  encode VarInt (VNum v) (Heap buf off) = Throw RangeError (Heap buf (off + 1)).
Proof.
  intros H. unfold encode at 1, VarInt. cbn [lift ToInteger].
  unfold bind at 1, ret at 1. unfold VarIntLoops.budget. cbn [VarIntLoops.encode_loop].
  destruct (0x80 <=? v).
  - unfold bind at 1. rewrite (UInt8_encode_beyond _ _ _ H). reflexivity.
  - apply UInt8_encode_beyond, H.
Qed.

Lemma decode_loop_beyond count i value bitOffset buf off :
  Z.of_nat (length buf) <= off ->
  VarIntLoops.decode_loop (S count) i value bitOffset (Heap buf off)
  = Throw RangeError (Heap buf (off + 1)).
Proof.
  intros H. cbn [VarIntLoops.decode_loop]. unfold bind at 1.
  rewrite UInt8_decode_cases. unfold in_bounds.
  destruct (Z.leb_spec 0 off); cbn [andb];
    [destruct (Z.leb_spec (off + Z.of_nat 1) (Z.of_nat (length buf))); [lia|]|];
    reflexivity.
Qed.

Lemma VarInt_decode_beyond buf off :
  Z.of_nat (length buf) <= off ->
  decode VarInt (Heap buf off) = Throw RangeError (Heap buf (off + 1)).
Proof.
  intros H. unfold decode at 1, VarInt. unfold bind at 1.
  rewrite (decode_loop_beyond 9 0 0 0 buf off H). reflexivity.
Qed.

Lemma VarInt_decode_buffer buf off v h :
  0 <= off -> decode VarInt (Heap buf off) = Return v h -> buffer h = buf.
Proof.
  intros H0. unfold decode at 1, VarInt. unfold bind at 1.
  pose proof (decode_loop_bounded 10 0 0 0 buf off H0) as B.
  destruct (VarIntLoops.decode_loop 10 0 0 0 (Heap buf off)) as [n h1|e h1];
    [|discriminate].
  unfold ret. intros [= _ <-]. apply B.
Qed.

End Socket.

Section Messages.

Lemma holds_at_whole bs : holds_at bs 0 bs.
Proof.
  split; [split; lia|]. unfold read_bytes. simpl. apply take_ge. lia.
Qed.

Lemma onmessage_registered definitions (packet : PacketDefinition.t) id out
    (head body : list Z) :
  definitions !! id = Some packet ->
  reads (decode VarInt) head (VNum id) ->
  reads (StructDefinition.decode (PacketDefinition.super packet)) body out ->
  BinarySocket.onmessage definitions (Heap (head ++ body) 0)
  = Return (Some (id, out)) (Heap (head ++ body) 0).
Proof.
  intros D Rh Rb.
  destruct (holds_at_app _ _ _ _ (holds_at_whole (head ++ body))) as [H1 H2].
  unfold BinarySocket.onmessage. unfold bind at 1. rewrite (Rh _ _ H1).
  cbn [lift ToInteger]. unfold bind at 1, ret at 1. rewrite D.
  unfold bind at 1. unfold bind at 1. rewrite (Rb _ _ H2).
  reflexivity.
Qed.

End Messages.

(** X19: a packet sent is the packet received.  For a packet whose
    identifier lies in 0 .. 2^31 - 1, whose keys are distinct and in
    property order and whose fields are handled exactly by their types,
    [createBuffer] on a socket with a fresh write tracker gives
    the varint of the identifier followed by the fields' octets and leaves
    the socket as it was; on a socket that has the packet registered under
    its identifier and a fresh read tracker, the message handler calls
    every listener of that identifier, in the order of registration, with
    the same struct, and leaves the tracker at 0. *)
Theorem packet_sent_is_packet_received (s r : SocketState.t) (id : Z)
    (struct : StructLayout) (keys : StructKeys)
    (typeOf : string -> DataType) (val : string -> value)
    (bytes : string -> list Z) :
  let packet := PacketDefinition.new id struct keys in
  let data := VObj (map (fun k => (k, val k)) keys) in
  let message := varint id ++ concat (map bytes keys) in
  0 <= id < 2 ^ 31 ->
  propertyOrder keys ->
  (forall k, k ∈ keys -> assoc k struct = Some (typeOf k)) ->
  (forall k, k ∈ keys -> exact_codec (typeOf k) (val k) (bytes k)) ->
  SocketState.writeTracker s = 0 ->
  SocketState.readTracker r = 0 ->
  SocketState.definitions r !! id = Some packet ->
  SocketState.createBuffer s packet data = (Ok message, s) /\
  SocketState.onmessage r message
  = (Ok (map (fun listener => (listener, data))
             (default [] (SocketState.packetListeners r !! id))), r).
Proof.
  intros packet data message Hid O T E Hs Hr D.
  assert (N : NoDup keys) by exact (propertyOrderFrom_NoDup keys [] O (NoDup_nil_2)).
  assert (G : forall k, k ∈ keys -> getProp data k = val k).
  { intros k Hk. unfold data, getProp. rewrite (assoc_map_keys val keys k Hk).
    reflexivity. }
  split.
  - destruct (create_exact id struct keys typeOf data bytes T) as (_ & _ & C).
    + intros k Hk. rewrite (G k Hk). apply (E k Hk).
    + intros k Hk. rewrite (G k Hk). apply (E k Hk).
    + unfold SocketState.createBuffer. rewrite Hs.
      unfold run in C. fold packet in C. rewrite (C []). cbn [tracker].
      rewrite (setWriteTracker_same s 0 Hs). reflexivity.
  - unfold SocketState.onmessage. rewrite Hr. unfold message.
    rewrite (onmessage_registered _ packet id data _ _ D (VarInt_reads id Hid)).
    + cbn [tracker]. rewrite (setReadTracker_same r 0 Hr). reflexivity.
    + unfold packet, PacketDefinition.new. cbn [PacketDefinition.super].
      unfold StructDefinition.decode. rewrite fields_new.
      apply (decodeFrom_reads struct keys typeOf bytes val T
               (fun k Hk => proj2 (proj2 (E k Hk))) []).
      exact N.
Qed.

Lemma packet_sent_is_packet_received_witness :
  let packet := PacketDefinition.new 300 [("on", Bool); ("n", UInt16)] ["n"; "on"] in
  let data := VObj [("n", VNum 258); ("on", VBool true)] in
  let r := SocketState.addListener
             (SocketState.addListener
                (SocketState.definePacket SocketState.new packet) packet 7%nat)
             packet 4%nat in
  SocketState.createBuffer SocketState.new packet data
  = (Ok [0xAC; 0x02; 1; 2; 1], SocketState.new) /\
  SocketState.onmessage r [0xAC; 0x02; 1; 2; 1]
  = (Ok [(7%nat, data); (4%nat, data)], r).
Proof.
  intros packet data r.
  pose proof (packet_sent_is_packet_received SocketState.new r
                300 [("on", Bool); ("n", UInt16)] ["n"; "on"]
                (fun k => if decide (k = "n") then UInt16 else Bool)
                (fun k => if decide (k = "n") then VNum 258 else VBool true)
                (fun k => if decide (k = "n") then [1; 2] else [1])) as H.
  cbv zeta in H. apply H; clear H.
  - lia.
  - unfold propertyOrder. simpl.
    repeat split; try discriminate; repeat constructor;
      apply (bool_decide_unpack _); reflexivity.
  - intros k Hk. repeat (apply elem_of_cons in Hk as [->|Hk]; [reflexivity|]).
    apply elem_of_nil in Hk. contradiction.
  - intros k Hk.
    apply elem_of_cons in Hk as [->|Hk].
    { destruct primitive_codecs_exact as (_ & _ & _ & _ & U16 & _).
      apply (U16 258). lia. }
    apply elem_of_cons in Hk as [->|Hk].
    { destruct primitive_codecs_exact as (_ & _ & _ & _ & _ & _ & B & _).
      apply (B true). }
    apply elem_of_nil in Hk. contradiction.
  - reflexivity.
  - reflexivity.
  - reflexivity.
Defined.

(** X20: a message whose identifier has no registered definition is dropped:
    on a fresh read tracker the handler calls no listener, raises no error,
    reads nothing after the identifier and leaves the tracker at 0. *)
Theorem unknown_packet_is_dropped (r : SocketState.t) (data : list Z)
    (id : Z) (h : heap) :
  SocketState.readTracker r = 0 ->
  run (decode VarInt) data 0 = Return (VNum id) h ->
  SocketState.definitions r !! id = None ->
  SocketState.onmessage r data = (Ok [], r).
Proof.
  unfold run. intros Hr H D.
  pose proof (VarInt_decode_buffer data 0 _ h ltac:(lia) H) as B.
  unfold SocketState.onmessage, BinarySocket.onmessage. rewrite Hr.
  unfold bind at 1. rewrite H. cbn [lift ToInteger]. unfold bind at 1, ret at 1.
  rewrite D. unfold bind at 1. unfold ret at 1. unfold bind at 1.
  unfold reset, ret. cbn [tracker]. rewrite (setReadTracker_same r 0 Hr).
  reflexivity.
Qed.

Lemma unknown_packet_is_dropped_witness :
  SocketState.onmessage
    (SocketState.definePacket SocketState.new
       (PacketDefinition.new 1 [("n", UInt16)] ["n"]))
    [2; 0xFF]
  = (Ok [], SocketState.definePacket SocketState.new
              (PacketDefinition.new 1 [("n", UInt16)] ["n"])).
Proof.
  apply (unknown_packet_is_dropped _ [2; 0xFF] 2 (Heap [2; 0xFF] 1));
    reflexivity.
Defined.

(** X21: the read tracker is reset only when the handler returns.  A
    message no longer than the tracker's offset makes the handler throw
    [RangeError] on its first octet and leaves the tracker one further: an
    empty message on a fresh socket does so, and after it no message of one
    octet is accepted, and so on. *)
Theorem read_tracker_stays_stale (r : SocketState.t) (data : list Z) :
  Z.of_nat (length data) <= SocketState.readTracker r ->
  SocketState.onmessage r data
  = (Err RangeError,
     SocketState.setReadTracker r (SocketState.readTracker r + 1)).
Proof.
  intros H. unfold SocketState.onmessage, BinarySocket.onmessage.
  unfold bind at 1. rewrite (VarInt_decode_beyond data _ H). reflexivity.
Qed.

Lemma read_tracker_stays_stale_witness :
  let r := SocketState.definePacket SocketState.new
             (PacketDefinition.new 1 [] []) in
  SocketState.onmessage (SocketState.onmessage r []).2 [1]
  = (Err RangeError, SocketState.setReadTracker r 2).
Proof.
  apply (read_tracker_stays_stale
           (SocketState.onmessage
              (SocketState.definePacket SocketState.new
                 (PacketDefinition.new 1 [] [])) []).2 [1]).
  vm_compute. discriminate.
Defined.

(** X22: the write tracker is reset only when [create] returns.  Once it is
    left at an offset that is not below the size of a packet, creating that
    packet throws [RangeError] on the first octet of the identifier and
    leaves the tracker one further. *)
Theorem write_tracker_stays_stale (s : SocketState.t)
    (packet : PacketDefinition.t) (data : value) (a b : Z) :
  VarIntSize (VNum (PacketDefinition.id packet)) = Ok a ->
  StructDefinition.computeSize (PacketDefinition.super packet) data = Ok b ->
  0 <= b ->
  a + b <= SocketState.writeTracker s ->
  SocketState.createBuffer s packet data
  = (Err RangeError,
     SocketState.setWriteTracker s (SocketState.writeTracker s + 1)).
Proof.
  intros Ha Hb H0 Ht.
  assert (A0 : 0 <= a).
  { unfold VarIntSize in Ha. rewrite VarInt_size in Ha. injection Ha as <-. lia. }
  unfold SocketState.createBuffer, PacketDefinition.create.
  rewrite Ha, Hb. cbn [rbind lift]. unfold bind at 1. unfold ret at 1.
  unfold bind at 1. unfold PacketDefinition.newArrayBuffer at 1.
  destruct (Z.leb_spec 0 (a + b)); [|lia]. cbn [tracker].
  unfold bind at 1. rewrite VarInt_encode_beyond; [reflexivity|].
  rewrite length_replicate. lia.
Qed.

Lemma write_tracker_stays_stale_witness :
  let broken := PacketDefinition.new 2 [("f", Float32)] ["f"] in
  let packet := PacketDefinition.new 1 [("n", UInt16)] ["n"] in
  let s := (SocketState.createBuffer SocketState.new broken
              (VObj [("f", VFloat minus_2_5_f)])).2 in
  SocketState.writeTracker s = 5 /\
  SocketState.createBuffer s packet (VObj [("n", VNum 258)])
  = (Err RangeError, SocketState.setWriteTracker s 6).
Proof.
  split; [reflexivity|].
  apply (write_tracker_stays_stale
           (SocketState.createBuffer SocketState.new
              (PacketDefinition.new 2 [("f", Float32)] ["f"])
              (VObj [("f", VFloat minus_2_5_f)])).2
           (PacketDefinition.new 1 [("n", UInt16)] ["n"])
           (VObj [("n", VNum 258)]) 1 2).
  - reflexivity.
  - reflexivity.
  - lia.
  - vm_compute. discriminate.
Defined.

(** X23: registering packets keeps one definition for each identifier: the
    last one registered under it.  Identifiers no registered packet carries
    keep what they had. *)
Theorem definePackets_last_wins (s : SocketState.t)
    (packets : list PacketDefinition.t) (i : Z) :
  SocketState.definitions (SocketState.definePackets s packets) !! i
  = match List.find (fun p => bool_decide (PacketDefinition.id p = i))
                    (reverse packets) with
    | Some p => Some p
    | None => SocketState.definitions s !! i
    end.
Proof.
  unfold SocketState.definePackets. revert s.
  induction packets as [|p packets IH]; intros s; [reflexivity|].
  cbn [foldl]. rewrite IH, reverse_cons.
  assert (F : forall (f : PacketDefinition.t -> bool) l x,
            List.find f (l ++ [x])
            = match List.find f l with
              | Some y => Some y
              | None => if f x then Some x else None
              end).
  { intros f l x. induction l as [|y l IHl]; simpl; [reflexivity|].
    destruct (f y); [reflexivity|exact IHl]. }
  rewrite F. destruct (List.find _ (reverse packets)); [reflexivity|].
  unfold SocketState.definePacket. cbn [SocketState.definitions].
  destruct (bool_decide_reflect (PacketDefinition.id p = i)) as [<-|N].
  - apply lookup_insert_eq.
  - apply lookup_insert_ne, N.
Qed.

(** X24: listeners are kept by packet identifier.  Removing a listener
    through any definition with the same identifier removes every
    registration of it under that identifier, also those made before, keeps
    the other listeners in their order, and leaves the listeners of other
    identifiers alone. *)
Theorem removeListener_removes_every_registration (s : SocketState.t)
    (d d' : PacketDefinition.t) (h : PacketListener) :
  PacketDefinition.id d' = PacketDefinition.id d ->
  let s' := SocketState.removeListener (SocketState.addListener s d h) d' (Some h) in
  SocketState.packetListeners s' !! PacketDefinition.id d
  = Some (filter (fun v => v <> h)
            (default [] (SocketState.packetListeners s !! PacketDefinition.id d))) /\
  forall i, i <> PacketDefinition.id d ->
    SocketState.packetListeners s' !! i = SocketState.packetListeners s !! i.
Proof.
  intros E. cbn zeta. unfold SocketState.removeListener, SocketState.addListener.
  rewrite E.
  destruct (SocketState.packetListeners s !! PacketDefinition.id d) as [l|] eqn:L;
    cbn [SocketState.packetListeners SocketState.setPacketListeners];
    rewrite lookup_insert_eq;
    cbn [SocketState.packetListeners SocketState.setPacketListeners default].
  - rewrite insert_insert_eq. split.
    + rewrite lookup_insert_eq, filter_app. f_equal.
      rewrite filter_cons_False by (intros N; apply N; reflexivity).
      rewrite filter_nil. apply app_nil_r.
    + intros i N. rewrite lookup_insert_ne by congruence. reflexivity.
  - rewrite insert_insert_eq. split.
    + rewrite lookup_insert_eq.
      rewrite filter_cons_False by (intros N; apply N; reflexivity).
      reflexivity.
    + intros i N. rewrite lookup_insert_ne by congruence. reflexivity.
Qed.

Lemma removeListener_removes_every_registration_witness :
  let d := PacketDefinition.new 1 [("n", UInt16)] ["n"] in
  let d' := PacketDefinition.new 1 [] [] in
  let s := SocketState.addListener
             (SocketState.addListener SocketState.new d 7%nat) d 4%nat in
  SocketState.packetListeners
    (SocketState.removeListener (SocketState.addListener s d 7%nat) d' (Some 7%nat))
    !! 1
  = Some [4%nat].
Proof.
  exact (proj1 (removeListener_removes_every_registration
                  (SocketState.addListener
                     (SocketState.addListener SocketState.new
                        (PacketDefinition.new 1 [("n", UInt16)] ["n"]) 7%nat)
                     (PacketDefinition.new 1 [("n", UInt16)] ["n"]) 4%nat)
                  (PacketDefinition.new 1 [("n", UInt16)] ["n"])
                  (PacketDefinition.new 1 [] []) 7%nat eq_refl)).
Defined.
